(** * invenio_rdm_records.theme.views: template filters and the file download view

    A shallow embedding of [src/invenio_rdm_records/theme/views.py].

    Python values are modelled as follows.
    - [str] is [string]; keys are taken to be ASCII, so that Python's
      code-point order is [String.compare] and [str.lower] is the ASCII
      lowering [lower].
    - a [dict] with string keys is a [gmap string Value]; Python's [==] on
      dicts is then Leibniz equality.
    - a mapping whose iteration order is observable (the record's file
      collection) is an association list.
    - an exception is a constructor of [Exn]; code that may raise returns a
      [Res], and code that also assigns local variables or calls
      collaborators runs in the state-and-exception monad [M]. *)

From Stdlib Require Import ZArith Ascii String.
From stdpp Require Import gmap strings list sorting fin_maps.

Open Scope string_scope.
Open Scope Z_scope.

(** ** Exceptions and the monad *)

Inductive Exn : Type :=
  | KeyError
  | IndexError
  | TypeError
  | HTTPException (code : Z)
  | OtherException (name : string).

Inductive Res (A : Type) : Type :=
  | Ok (a : A)
  | Raise (e : Exn).
Arguments Ok {A} a.
Arguments Raise {A} e.

Definition M (S A : Type) : Type := S -> Res A * S.

Definition ret {S A} (a : A) : M S A := fun s => (Ok a, s).
Definition raise {S A} (e : Exn) : M S A := fun s => (Raise e, s).
Definition bind {S A B} (m : M S A) (k : A -> M S B) : M S B :=
  fun s => match m s with
           | (Ok a, s') => k a s'
           | (Raise e, s') => (Raise e, s')
           end.
Definition get {S} : M S S := fun s => (Ok s, s).
Definition put {S} (s : S) : M S unit := fun _ => (Ok tt, s).
Definition lift {S A} (r : Res A) : M S A := fun s => (r, s).

(** [try: m except catches: h]: run [m]; an exception [e] with
    [catches e = true] is handled by [h], any other propagates.  State
    changes made before the exception are kept, as in Python. *)
Definition try_except {S A} (m : M S A) (catches : Exn -> bool)
    (h : M S A) : M S A :=
  fun s => match m s with
           | (Ok a, s') => (Ok a, s')
           | (Raise e, s') => if catches e then h s' else (Raise e, s')
           end.

Declare Scope py_scope.
Delimit Scope py_scope with py.
Notation "x <- m ;; k" := (bind m (fun x => k))
  (at level 100, m at next level, right associativity) : py_scope.
Notation "m ;;; k" := (bind m (fun _ => k))
  (at level 100, right associativity) : py_scope.
Open Scope py_scope.

(** [for x in l: body x] *)
Fixpoint for_each {S A} (l : list A) (body : A -> M S unit) : M S unit :=
  match l with
  | [] => ret tt
  | x :: l' => body x ;;; for_each l' body
  end.

(** Evaluate [f] on every element, left to right, stopping at the first
    exception. *)
Fixpoint map_res {A B} (f : A -> Res B) (l : list A) : Res (list B) :=
  match l with
  | [] => Ok []
  | x :: l' =>
      match f x with
      | Raise e => Raise e
      | Ok y => match map_res f l' with
                | Raise e => Raise e
                | Ok ys => Ok (y :: ys)
                end
      end
  end.

Definition is_KeyError (e : Exn) : bool :=
  match e with KeyError => true | _ => false end.
Definition is_IndexError (e : Exn) : bool :=
  match e with IndexError => true | _ => false end.
(** [except Exception] catches every exception of the model. *)
Definition is_Exception (e : Exn) : bool := true.

(** ** Values and dictionaries *)

Inductive Value : Type :=
  | VStr (s : string)
  | VInt (z : Z).

#[global] Instance Value_eq_dec : EqDecision Value.
Proof. solve_decision. Defined.

Abbreviation Dict := (gmap string Value).

(** [d[k]] *)
Definition getitem (d : Dict) (k : string) : Res Value :=
  match d !! k with
  | Some v => Ok v
  | None => Raise KeyError
  end.

(** ** Strings: [str.rfind], slices, [str.lower], [os.path.splitext] *)

(** [rfind_from c s i]: the highest index of [c] in [s] when the first
    character of [s] has index [i], and [-1] when [c] does not occur. *)
Fixpoint rfind_from (c : ascii) (s : string) (i : Z) : Z :=
  match s with
  | EmptyString => -1
  | String a s' =>
      let r := rfind_from c s' (i + 1) in
      if 0 <=? r then r else if Ascii.eqb a c then i else -1
  end.

(** [p.rfind(c)] *)
Definition rfind (p : string) (c : ascii) : Z := rfind_from c p 0.

(** [p[i:j]] for [0 <= i]. *)
Definition slice (p : string) (i j : Z) : string :=
  String.substring (Z.to_nat i) (Z.to_nat (j - i)) p.

(** [p[i:]] for [0 <= i]. *)
Definition slice_from (p : string) (i : Z) : string :=
  slice p i (Z.of_nat (String.length p)).

Definition lower_ascii (a : ascii) : ascii :=
  let n := N_of_ascii a in
  if ((65 <=? n) && (n <=? 90))%N then ascii_of_N (n + 32) else a.

(** [s.lower()] *)
Fixpoint lower (s : string) : string :=
  match s with
  | EmptyString => EmptyString
  | String a s' => String (lower_ascii a) (lower s')
  end.

(** The [while filenameIndex < dotIndex] loop of [genericpath._splitext];
    [n] is the number of iterations left, [dotIndex - filenameIndex]. *)
Fixpoint splitext_scan (p : string) (filenameIndex : Z) (n : nat)
    (dotIndex : Z) : string * string :=
  match n with
  | O => (p, "")
  | S n' =>
      if negb (String.eqb (slice p filenameIndex (filenameIndex + 1)) ".")
      then (slice p 0 dotIndex, slice_from p dotIndex)
      else splitext_scan p (filenameIndex + 1) n' dotIndex
  end.

(** [os.path.splitext(p)] (posixpath: [sep = '/'], no [altsep],
    [extsep = '.']).  The extension starts at the last dot of the last
    path component; leading dots of that component do not start one. *)
Definition splitext (p : string) : string * string :=
  let sepIndex := rfind p "/"%char in
  let dotIndex := rfind p "."%char in
  if sepIndex <? dotIndex
  then splitext_scan p (sepIndex + 1) (Z.to_nat (dotIndex - (sepIndex + 1)))
         dotIndex
  else (p, "").

(** [splitext(key)[1][1:].lower()] *)
Definition file_type (key : string) : string :=
  lower (slice_from (snd (splitext key)) 1).

(** ** [select_preview_file] *)

(** A file descriptor is a dict; the selector reads only its ['key']. *)
Definition as_str (v : Value) : Res string :=
  match v with
  | VStr s => Ok s
  | VInt _ => Raise TypeError
  end.

(** [f['key']] used as a string. *)
Definition str_key (f : Dict) : Res string :=
  match getitem f "key" with
  | Ok v => as_str v
  | Raise e => Raise e
  end.

(** [files or []] *)
Definition or_empty {A} (files : option (list A)) : list A :=
  match files with
  | Some l => l
  | None => []
  end.

(** Insertion of [x] in front of the first element whose key is not
    smaller: elements with equal keys keep their input order. *)
Fixpoint insert_by_key {A} (x : string * A) (l : list (string * A))
    : list (string * A) :=
  match l with
  | [] => [x]
  | y :: l' =>
      if String.leb (fst x) (fst y) then x :: y :: l'
      else y :: insert_by_key x l'
  end.

(** The stable sort of a list of (key, element) pairs by key. *)
Fixpoint sort_by_key {A} (l : list (string * A)) : list (string * A) :=
  match l with
  | [] => []
  | x :: l' => insert_by_key x (sort_by_key l')
  end.

(** The first phase of [sorted(files, key=itemgetter('key'))]: the key
    function is applied to every element before any comparison, so a
    descriptor without ['key'] raises [KeyError] wherever it stands. *)
Definition itemgetter_all (files : list Dict) : Res (list (Value * Dict)) :=
  map_res (fun f => match getitem f "key" with
                    | Ok v => Ok (v, f)
                    | Raise e => Raise e
                    end) files.

(** Keys that are not strings: comparing a [str] with an [int] raises
    [TypeError] in the sort, and [splitext] raises it on an [int]. *)
Definition str_keys (kvs : list (Value * Dict)) : Res (list (string * Dict)) :=
  map_res (fun kv => match as_str (fst kv) with
                     | Ok s => Ok (s, snd kv)
                     | Raise e => Raise e
                     end) kvs.

(** [sorted(files, key=itemgetter('key'))] *)
Definition sorted_by_key (files : list Dict) : Res (list Dict) :=
  match itemgetter_all files with
  | Raise e => Raise e
  | Ok kvs =>
      match str_keys kvs with
      | Raise e => Raise e
      | Ok sfs => Ok (map snd (sort_by_key sfs))
      end
  end.

Section Selector.

(** [invenio_previewer.views.is_previewable], an external predicate. *)
Variable is_previewable : string -> bool.

(** The body of the [for] loop; the state is the local [selected]. *)
Definition select_step (default_preview : option string) (f : Dict)
    : M (option Dict) unit :=
  k <- lift (str_key f) ;;
  if is_previewable (file_type k) then
    selected <- get ;;
    match selected with
    | None => put (Some f)
    | Some _ =>
        k' <- lift (str_key f) ;;
        if decide (Some k' = default_preview) then put (Some f)
        else ret tt
    end
  else ret tt.

Definition select_preview_file (files : option (list Dict))
    (default_preview : option string) : Res (option Dict) :=
  let body : M (option Dict) unit :=
    try_except
      (fs <- lift (sorted_by_key (or_empty files)) ;;
       for_each fs (select_step default_preview))
      is_KeyError
      (ret tt) in
  match body None with
  | (Ok _, selected) => Ok selected
  | (Raise e, _) => Raise e
  end.

End Selector.

(** ** The file entry normalizers *)

(** [invenio_files_rest.models.ObjectVersion], with the fields read here
    and by [FileObject.dumps]; [ov_checksum], [ov_size] and [ov_contents]
    stand for [obj.file.checksum], [obj.file.size] and the stored bytes;
    the identifiers are held as the strings that [str] makes of them. *)
Record ObjectVersion : Type := {
  ov_bucket_id : string;
  ov_key : string;
  ov_version_id : string;
  ov_file_id : string;
  ov_checksum : string;
  ov_size : Z;
  ov_contents : string
}.

(** [invenio_records_files.api.FileObject(obj, data)] *)
Record FileObject : Type := {
  obj : ObjectVersion;
  data : Dict
}.

(** [FileObject.dumps()]: [data.update] with the six fields of the object
    version ([bucket], [checksum], [file_id], [key], [size], [version_id]),
    then [return self.data]. *)
Definition FileObject_dumps (fo : FileObject) : Dict :=
  <["version_id" := VStr (ov_version_id (obj fo))]>
  (<["size" := VInt (ov_size (obj fo))]>
  (<["key" := VStr (ov_key (obj fo))]>
  (<["file_id" := VStr (ov_file_id (obj fo))]>
  (<["checksum" := VStr (ov_checksum (obj fo))]>
  (<["bucket" := VStr (ov_bucket_id (obj fo))]> (data fo)))))).

(** [fileobj.get('checksum')]: an object version has no attribute of that
    name, so the lookup falls through to [data.get('checksum')]. *)
Definition FileObject_get_checksum (fo : FileObject) : option Value :=
  data fo !! "checksum".

(** An entry of the record's file collection. *)
Record RecordFile : Type := {
  object_version : ObjectVersion;
  metadata : option Dict
}.

(** The file collection: a mapping from key to entry, in iteration order. *)
Abbreviation RecordFiles := (list (string * RecordFile)).

Record RDMRecord : Type := {
  files : RecordFiles
}.

(** [files[file]] *)
Fixpoint mapping_getitem {A} (m : list (string * A)) (k : string) : Res A :=
  match m with
  | [] => Raise KeyError
  | (k', v) :: m' => if String.eqb k' k then Ok v else mapping_getitem m' k
  end.

(** [m or {}] *)
Definition or_empty_dict (m : option Dict) : Dict :=
  match m with
  | Some d => if decide (d = ∅) then ∅ else d
  | None => ∅
  end.

Definition make_files_preview_compatible (files : RecordFiles)
    : Res (list Dict) :=
  map_res (fun file =>
             match mapping_getitem files file with
             | Ok rf =>
                 Ok (FileObject_dumps
                       {| obj := object_version rf; data := ∅ |})
             | Raise e => Raise e
             end)
          (map fst files).

Definition to_previewer_files (record : RDMRecord) : list FileObject :=
  map (fun f => {| obj := object_version f;
                   data := or_empty_dict (metadata f) |})
      (map snd (files record)).

(** ** Collaborator calls *)

Record PersistentIdentifier : Type := {
  pid_type : string;
  pid_value : string
}.

Record LoggerData : Type := {
  ld_bucket_id : string;
  ld_pid_type : string;
  ld_pid_value : string
}.

(** A Flask response, as far as this module can observe one. *)
Record Response : Type := {
  status_code : Z;
  content_disposition : string;
  body : string
}.

(** What the views do to the outside world, in order. *)
Inductive Event : Type :=
  | EvDetectIdentifierSchemes (identifier : option string)
  | EvToUrl (identifier scheme url_scheme : string)
  | EvLogWarning (msg : string)
  | EvRecordFileFactory (pid : PersistentIdentifier) (record : RDMRecord)
      (filename : option string)
  | EvCheckObjectPermission (o : ObjectVersion)
  | EvSendObject (bucket : string) (o : ObjectVersion)
      (expected_chksum : option Value) (logger_data : LoggerData)
      (as_attachment : bool).

Abbreviation Trace := (list Event).

(** A call of a collaborator: the call is recorded, then its result (a
    value or an exception) is the result of the call. *)
Definition call {A} (ev : Event) (r : Res A) : M Trace A :=
  fun tr => (r, (tr ++ [ev])%list).

Definition log_warning (msg : string) : M Trace unit :=
  call (EvLogWarning msg) (Ok tt).

(** ** [can_list_files] *)

Section Permissions.

(** [get_record_permission_policy()(action=..., record=...).can()] *)
Variable permission_can : string -> RDMRecord -> bool.

Definition can_list_files (record : RDMRecord) : bool :=
  permission_can "read_files" record.

End Permissions.

(** ** [pid_url] *)

(** [xs[0]] *)
Definition first_item {A} (xs : list A) : Res A :=
  match xs with
  | x :: _ => Ok x
  | [] => Raise IndexError
  end.

Section PidUrl.

(** [idutils.detect_identifier_schemes] and [idutils.to_url]. *)
Variable detect_identifier_schemes : option string -> Res (list string).
Variable to_url : string -> string -> string -> Res string.

(** An identifier is [None] or a [str]; [scheme=None] is [None]. *)
Definition pid_url (identifier : option string) (scheme : option string)
    (url_scheme : string) : M Trace string :=
  scheme <-
    match scheme with
    | None =>
        try_except
          (schemes <- call (EvDetectIdentifierSchemes identifier)
                        (detect_identifier_schemes identifier) ;;
           s <- lift (first_item schemes) ;;
           ret (Some s))
          is_IndexError
          (ret None)
    | Some _ => ret scheme
    end ;;
  returned <-
    try_except
      (match scheme, identifier with
       | Some sc, Some i =>
           if negb (String.eqb sc "") && negb (String.eqb i "")
           then u <- call (EvToUrl i sc url_scheme) (to_url i sc url_scheme) ;;
                ret (Some u)
           else ret None
       | _, _ => ret None
       end)
      is_Exception
      (log_warning ("URL generation for identifier "
                      ++ default "None" identifier ++ " failed.")%string ;;;
       ret None) ;;
  match returned with
  | Some u => ret u
  | None => ret ""
  end.

End PidUrl.

(** ** [file_download_ui] *)

Abbreviation RecordFileFactory :=
  (PersistentIdentifier -> RDMRecord -> option string ->
   Res (option FileObject)).

Section Download.

(** [..utils.previewer_record_file_factory], the default factory, and
    [ObjectResource.send_object] of invenio-files-rest. *)
Variable previewer_record_file_factory : RecordFileFactory.
Variable send_object :
  string -> ObjectVersion -> option Value -> LoggerData -> bool ->
  Res Response.

(** [request_args] is [request.args], a multi-dict of the query string;
    [kwargs] holds the view arguments. *)
Definition file_download_ui (request_args : list (string * string))
    (pid : PersistentIdentifier) (record : RDMRecord)
    (_record_file_factory : option RecordFileFactory)
    (kwargs : gmap string string) : M Trace Response :=
  let _record_file_factory :=
    default previewer_record_file_factory _record_file_factory in
  fileobj <- call (EvRecordFileFactory pid record (kwargs !! "filename"))
               (_record_file_factory pid record (kwargs !! "filename")) ;;
  match fileobj with
  | None => raise (HTTPException 404)
  | Some fileobj =>
      let o := obj fileobj in
      let expected_chksum := FileObject_get_checksum fileobj in
      let logger_data :=
        {| ld_bucket_id := ov_bucket_id o;
           ld_pid_type := pid_type pid;
           ld_pid_value := pid_value pid |} in
      let as_attachment :=
        bool_decide ("download" ∈ map fst request_args) in
      call (EvSendObject (ov_bucket_id o) o expected_chksum logger_data
              as_attachment)
           (send_object (ov_bucket_id o) o expected_chksum logger_data
              as_attachment)
  end.

End Download.

(** ** Specification-side definitions *)

(** The order in which [sorted] leaves the (key, descriptor) pairs. *)
Definition key_le {A} (x y : string * A) : Prop :=
  String.leb (fst x) (fst y) = true.

(** The key of a descriptor whose ['key'] is present and a string. *)
Definition key_of (f : Dict) : option string :=
  match f !! "key" with
  | Some (VStr s) => Some s
  | _ => None
  end.

Definition skey (f : Dict) : string := default "" (key_of f).

(** The descriptors paired with their keys, as [sorted] compares them. *)
Definition decorate (files : list Dict) : list (string * Dict) :=
  map (fun f => (skey f, f)) files.

(** The files in the order the loop visits them. *)
Definition scan_order (files : list Dict) : list Dict :=
  map snd (sort_by_key (decorate files)).

Section SelectorSpec.

Variable is_previewable : string -> bool.

(** Previewability as the code decides it. *)
Definition previewable (f : Dict) : bool :=
  is_previewable (file_type (skey f)).

(** One iteration of the loop as a function on [selected]. *)
Definition scan_step (default_preview : option string)
    (selected : option Dict) (f : Dict) : option Dict :=
  if previewable f then
    match selected with
    | None => Some f
    | Some _ =>
        if decide (Some (skey f) = default_preview) then Some f
        else selected
    end
  else selected.

Definition scan (default_preview : option string) (l : list Dict)
    (selected : option Dict) : option Dict :=
  fold_left (scan_step default_preview) l selected.

End SelectorSpec.

(** [r] is the descriptor of [files] with the smallest key among those that
    [pv] accepts, or nothing when [pv] accepts none. *)
Definition smallest_previewable (pv : Dict -> bool) (files : list Dict)
    (r : option Dict) : Prop :=
  match r with
  | Some f =>
      f ∈ files /\ pv f = true /\
      forall g, g ∈ files -> pv g = true ->
                String.leb (skey f) (skey g) = true
  | None => forall g, g ∈ files -> pv g = false
  end.

(** The extension in the specification's words: the lowercased substring
    after the last ['.'] of the key, empty when the key has no ['.']. *)
Definition spec_extension (key : string) : string :=
  let dotIndex := rfind key "."%char in
  if dotIndex <? 0 then "" else lower (slice_from key (dotIndex + 1)).

Definition spec_previewable (is_previewable : string -> bool) (f : Dict)
    : bool :=
  is_previewable (spec_extension (skey f)).

(** The reading of the selector in which a descriptor without ['key'] is
    skipped: the result is that of the selector on the other descriptors. *)
Definition skips_keyless (is_previewable : string -> bool)
    (files : list Dict) (default_preview : option string) : Prop :=
  select_preview_file is_previewable (Some files) default_preview
  = select_preview_file is_previewable
      (Some (filter (fun f : Dict => is_Some (f !! "key")) files))
      default_preview.

(** Descriptors and predicates used in the examples. *)
Definition file_desc (key : string) (size : Z) : Dict :=
  <["key" := VStr key]> (<["size" := VInt size]> ∅).
Definition no_key_desc (size : Z) : Dict := <["size" := VInt size]> ∅.

Definition images_and_text (ext : string) : bool :=
  bool_decide (ext ∈ ["png"; "jpg"; "pdf"; "txt"]).
Definition png_only (ext : string) : bool := String.eqb ext "png".

(** The entry's metadata when present, an empty mapping when absent. *)
Definition metadata_or_empty (rf : RecordFile) : Dict :=
  default ∅ (metadata rf).

(** The reading of the normalizers in which both carry the metadata: one
    output per entry, whose data is the entry's metadata or an empty
    mapping.  An output of [make_files_preview_compatible] is the data of
    its [FileObject] after [dumps]. *)
Definition normalizers_keep_metadata (files : RecordFiles) : Prop :=
  (exists outs,
     make_files_preview_compatible files = Ok outs /\
     Forall2 (fun e out => out = metadata_or_empty e.2) files outs) /\
  Forall2 (fun e fo => data fo = metadata_or_empty e.2) files
    (to_previewer_files {| files := files |}).

(** [not identifier] *)
Definition falsy (identifier : option string) : bool :=
  match identifier with
  | None => true
  | Some s => String.eqb s ""
  end.

(** "[pid_url] returns a string and propagates no exception". *)
Definition pid_url_returns
    (detect_identifier_schemes : option string -> Res (list string))
    (to_url : string -> string -> string -> Res string)
    (identifier scheme : option string) (url_scheme : string) : Prop :=
  exists s tr,
    pid_url detect_identifier_schemes to_url identifier scheme url_scheme []
    = (Ok s, tr).

(** "A mismatch between the object's checksum and the recorded one never
    ends in a 200 response". *)
Definition mismatch_never_served (r : Res Response) (fileobj : FileObject)
    : Prop :=
  forall c,
    FileObject_get_checksum fileobj = Some (VStr c) ->
    c <> ov_checksum (obj fileobj) ->
    forall resp, r = Ok resp -> status_code resp <> 200.

(** *** Collaborators and data used in the examples *)

(** A scheme detector that knows DOIs and, like
    [idutils.detect_identifier_schemes], matches its argument against
    patterns, which raises [TypeError] on [None]. *)
Definition detect_doi (identifier : option string) : Res (list string) :=
  match identifier with
  | None => Raise TypeError
  | Some i => if String.prefix "10." i then Ok ["doi"] else Ok []
  end.

Definition to_url_doi (identifier scheme url_scheme : string) : Res string :=
  if String.eqb scheme "doi"
  then Ok (url_scheme ++ "://doi.org/" ++ identifier)%string
  else Ok "".

(** A URL generator that always fails. *)
Definition to_url_failing (identifier scheme url_scheme : string)
    : Res string :=
  Raise (OtherException "ValueError").

(** A factory that looks the file name up in the record's files, and
    answers [None] when there is no name or no such file. *)
Definition lookup_factory : RecordFileFactory :=
  fun pid record filename =>
    match filename with
    | None => Ok None
    | Some name =>
        match mapping_getitem (files record) name with
        | Ok rf => Ok (Some {| obj := object_version rf;
                               data := or_empty_dict (metadata rf) |})
        | Raise _ => Ok None
        end
    end.

(** A streaming collaborator in the manner of
    [ObjectResource.send_object] of invenio-files-rest: a checksum that
    differs from the expected one is reported in the log only, and the
    object is sent. *)
Definition send_object_warning_only (bucket : string) (o : ObjectVersion)
    (expected_chksum : option Value) (logger_data : LoggerData)
    (as_attachment : bool) : Res Response :=
  Ok {| status_code := 200;
        content_disposition :=
          if as_attachment then "attachment" else "inline";
        body := ov_contents o |}.

(** A streaming collaborator that refuses an object whose checksum is not
    the expected one. *)
Definition send_object_strict (bucket : string) (o : ObjectVersion)
    (expected_chksum : option Value) (logger_data : LoggerData)
    (as_attachment : bool) : Res Response :=
  match expected_chksum with
  | Some c =>
      if decide (c = VStr (ov_checksum o))
      then send_object_warning_only bucket o expected_chksum logger_data
             as_attachment
      else Raise (OtherException "IntegrityFault")
  | None =>
      send_object_warning_only bucket o expected_chksum logger_data
        as_attachment
  end.

(** A streaming collaborator that, in the manner of the file sending of
    invenio-files-rest, answers with an attachment also when none was asked
    for, unless it trusts the type of the object for display in the
    browser; here it trusts text and images. *)
Definition send_object_sanitizing (bucket : string) (o : ObjectVersion)
    (expected_chksum : option Value) (logger_data : LoggerData)
    (as_attachment : bool) : Res Response :=
  let trusted :=
    bool_decide (file_type (ov_key o) ∈ ["txt"; "png"; "jpg"]) in
  Ok {| status_code := 200;
        content_disposition :=
          if as_attachment || negb trusted then "attachment" else "inline";
        body := ov_contents o |}.

Definition deny_all (action : string) (record : RDMRecord) : bool := false.

Definition report_pdf : ObjectVersion :=
  {| ov_bucket_id := "bucket-1"; ov_key := "report.pdf";
     ov_version_id := "v1"; ov_file_id := "file-1";
     ov_checksum := "md5:bbbb"; ov_size := 4;
     ov_contents := "%PDF" |}.

(** An entry whose recorded checksum is not the checksum of the object. *)
Definition report_entry : RecordFile :=
  {| object_version := report_pdf;
     metadata := Some (<["checksum" := VStr "md5:aaaa"]>
                       (<["description" := VStr "annual report"]> ∅)) |}.

Definition notes_txt : ObjectVersion :=
  {| ov_bucket_id := "bucket-1"; ov_key := "notes.txt";
     ov_version_id := "v7"; ov_file_id := "file-2";
     ov_checksum := "md5:cccc"; ov_size := 2;
     ov_contents := "hi" |}.

Definition notes_entry : RecordFile :=
  {| object_version := notes_txt; metadata := None |}.

Definition sample_record : RDMRecord :=
  {| files := [("report.pdf", report_entry); ("notes.txt", notes_entry)] |}.

Definition sample_pid : PersistentIdentifier :=
  {| pid_type := "recid"; pid_value := "abcde-12345" |}.

(** "Every resolved file that [file_download_ui] streams is refused when
    its checksum is not the recorded one". *)
Definition download_enforces_integrity
    (previewer_record_file_factory : RecordFileFactory)
    (send_object : string -> ObjectVersion -> option Value -> LoggerData ->
                   bool -> Res Response)
    (request_args : list (string * string)) (pid : PersistentIdentifier)
    (record : RDMRecord) (_record_file_factory : option RecordFileFactory)
    (kwargs : gmap string string) : Prop :=
  forall fileobj,
    default previewer_record_file_factory _record_file_factory pid record
      (kwargs !! "filename") = Ok (Some fileobj) ->
    mismatch_never_served
      (file_download_ui previewer_record_file_factory send_object
         request_args pid record _record_file_factory kwargs []).1
      fileobj.

(** The [FileObject] that [lookup_factory] makes of [report_entry]. *)
Definition report_fileobj : FileObject :=
  {| obj := report_pdf;
     data := <["checksum" := VStr "md5:aaaa"]>
             (<["description" := VStr "annual report"]> ∅) |}.

Definition report_logger_data : LoggerData :=
  {| ld_bucket_id := "bucket-1"; ld_pid_type := "recid";
     ld_pid_value := "abcde-12345" |}.

Definition report_kwargs : gmap string string :=
  {[ "filename" := "report.pdf" ]}.

(** "The response is an attachment exactly when the query string has an
    argument named [download], and inline when it has none". *)
Definition disposition_follows_download
    (request_args : list (string * string)) (r : Res Response) : Prop :=
  forall resp,
    r = Ok resp ->
    content_disposition resp
    = if bool_decide ("download" ∈ request_args.*1)
      then "attachment" else "inline".

(** ** [doi_identifier] *)

(** The [for identifier in identifiers] loop over the keys [keys] still to
    visit, with its early [return identifiers[identifier]]; falling off the
    end of the loop returns [None]. *)
Fixpoint doi_identifier_loop (identifiers : list (string * Value))
    (keys : list string) : Res (option Value) :=
  match keys with
  | [] => Ok None
  | identifier :: keys' =>
      if String.eqb identifier "doi" then
        match mapping_getitem identifiers identifier with
        | Ok v => Ok (Some v)
        | Raise e => Raise e
        end
      else doi_identifier_loop identifiers keys'
  end.

(** [identifiers] is a mapping from scheme to identifier, in iteration
    order. *)
Definition doi_identifier (identifiers : list (string * Value))
    : Res (option Value) :=
  doi_identifier_loop identifiers (identifiers.*1).

(** The ['key'] of what the selector returns: nothing when it selects
    nothing, the exception when it raises. *)
Definition selected_key (r : Res (option Dict)) : Res (option Value) :=
  match r with
  | Ok (Some f) => Ok (f !! "key")
  | Ok None => Ok None
  | Raise e => Raise e
  end.

(** * Properties *)

(** ** The order on keys *)

Lemma ascii_compare_refl (a : ascii) : Ascii.compare a a = Eq.
Proof. unfold Ascii.compare. apply N.compare_refl. Qed.

Lemma ascii_compare_lt_trans (a b c : ascii) :
  Ascii.compare a b = Lt -> Ascii.compare b c = Lt -> Ascii.compare a c = Lt.
Proof.
  unfold Ascii.compare. rewrite !N.compare_lt_iff. apply N.lt_trans.
Qed.

Lemma string_compare_refl (s : string) : String.compare s s = Eq.
Proof.
  induction s as [|a s IH]; simpl; [reflexivity|].
  rewrite ascii_compare_refl. exact IH.
Qed.

Lemma string_compare_lt_trans (s1 s2 s3 : string) :
  String.compare s1 s2 = Lt -> String.compare s2 s3 = Lt ->
  String.compare s1 s3 = Lt.
Proof.
  revert s2 s3.
  induction s1 as [|a s1 IH]; intros [|b s2] [|c s3]; simpl;
    try discriminate; try reflexivity.
  destruct (Ascii.compare a b) eqn:Hab; try discriminate;
    destruct (Ascii.compare b c) eqn:Hbc; try discriminate; intros H1 H2.
  - apply Ascii.compare_eq_iff in Hab, Hbc. subst.
    rewrite ascii_compare_refl. eauto.
  - apply Ascii.compare_eq_iff in Hab. subst. rewrite Hbc. reflexivity.
  - apply Ascii.compare_eq_iff in Hbc. subst. rewrite Hab. reflexivity.
  - rewrite (ascii_compare_lt_trans _ _ _ Hab Hbc). reflexivity.
Qed.

Lemma string_leb_cases (s1 s2 : string) :
  String.leb s1 s2 = true <-> String.compare s1 s2 = Lt \/ s1 = s2.
Proof.
  unfold String.leb. split.
  - destruct (String.compare s1 s2) eqn:Hc; try discriminate; intros _.
    + right. apply String.compare_eq_iff. exact Hc.
    + left. reflexivity.
  - intros [H | ->]; [rewrite H | rewrite string_compare_refl]; reflexivity.
Qed.

Lemma string_leb_refl (s : string) : String.leb s s = true.
Proof. apply string_leb_cases. right. reflexivity. Qed.

Lemma string_leb_trans (s1 s2 s3 : string) :
  String.leb s1 s2 = true -> String.leb s2 s3 = true ->
  String.leb s1 s3 = true.
Proof.
  rewrite !string_leb_cases. intros [H12 | ->] [H23 | ->]; auto.
  left. eapply string_compare_lt_trans; eassumption.
Qed.

Lemma string_leb_false (s1 s2 : string) :
  String.leb s1 s2 = false -> String.leb s2 s1 = true.
Proof.
  intros H. destruct (String.leb_total s1 s2) as [H' | H']; congruence.
Qed.

#[local] Instance key_le_trans {A} : Transitive (@key_le A).
Proof. intros x y z. apply string_leb_trans. Qed.

(** ** The stable sort *)

Lemma insert_by_key_perm {A} (x : string * A) l :
  insert_by_key x l ≡ₚ x :: l.
Proof.
  induction l as [|y l IH]; simpl; [reflexivity|].
  destruct (String.leb (fst x) (fst y)); [reflexivity|].
  rewrite IH. apply Permutation_swap.
Qed.

Lemma sort_by_key_perm {A} (l : list (string * A)) : sort_by_key l ≡ₚ l.
Proof.
  induction l as [|x l IH]; simpl; [reflexivity|].
  rewrite insert_by_key_perm, IH. reflexivity.
Qed.

Lemma insert_by_key_sorted {A} (x : string * A) l :
  Sorted key_le l -> Sorted key_le (insert_by_key x l).
Proof.
  induction l as [|y l IH]; simpl; intros Hs.
  - repeat constructor.
  - destruct (String.leb (fst x) (fst y)) eqn:Hxy.
    + constructor; [exact Hs|]. constructor. exact Hxy.
    + apply Sorted_inv in Hs as [Hs Hhd].
      constructor; [auto|].
      destruct l as [|z l]; simpl.
      * constructor. apply string_leb_false, Hxy.
      * destruct (String.leb (fst x) (fst z)).
        -- constructor. apply string_leb_false, Hxy.
        -- constructor. inversion Hhd; assumption.
Qed.

Lemma sort_by_key_sorted {A} (l : list (string * A)) :
  Sorted key_le (sort_by_key l).
Proof.
  induction l as [|x l IH]; simpl; [constructor|].
  apply insert_by_key_sorted, IH.
Qed.

Lemma sort_by_key_strongly_sorted {A} (l : list (string * A)) :
  StronglySorted key_le (sort_by_key l).
Proof. apply Sorted_StronglySorted; [apply _|apply sort_by_key_sorted]. Qed.

Lemma scan_order_perm (files : list Dict) : scan_order files ≡ₚ files.
Proof.
  unfold scan_order, decorate.
  rewrite sort_by_key_perm, map_map. simpl. rewrite map_id. reflexivity.
Qed.

Lemma elem_of_sorted_decorate (x : string * Dict) files :
  x ∈ sort_by_key (decorate files) <-> x.1 = skey x.2 /\ x.2 ∈ files.
Proof.
  rewrite sort_by_key_perm. unfold decorate.
  rewrite list_elem_of_fmap. split.
  - intros (f & -> & Hf). auto.
  - intros [Hk Hf]. exists x.2. split; [|done].
    destruct x; simpl in *; congruence.
Qed.

(** The visiting order is ascending in the key. *)
Lemma scan_order_sorted (files : list Dict) :
  StronglySorted (fun f g => String.leb (skey f) (skey g) = true)
    (scan_order files).
Proof.
  unfold scan_order.
  assert (Hel : Forall (fun x : string * Dict => x.1 = skey x.2)
                  (sort_by_key (decorate files))).
  { apply Forall_forall. intros x Hx.
    apply elem_of_sorted_decorate in Hx. tauto. }
  pose proof (sort_by_key_strongly_sorted (decorate files)) as Hs.
  induction Hs as [|x l Hs IH Hx]; simpl; [constructor|].
  apply Forall_cons in Hel as [Hxk Hel].
  constructor; [auto|].
  apply Forall_fmap. simpl in *.
  rewrite Forall_forall in Hx, Hel. apply Forall_forall. intros y Hy. simpl.
  specialize (Hx y Hy). unfold key_le in Hx.
  rewrite <- Hxk, <- (Hel y Hy). exact Hx.
Qed.

(** ** The selector as a scan of the sorted descriptors *)

Lemma map_res_ok {A B} (f : A -> Res B) (g : A -> B) l :
  Forall (fun x => f x = Ok (g x)) l -> map_res f l = Ok (map g l).
Proof.
  induction 1 as [|x l Hx _ IH]; simpl; [reflexivity|].
  rewrite Hx, IH. reflexivity.
Qed.

Lemma map_res_raise {A B} (f : A -> Res B) e l :
  Forall (fun x => f x = Raise e \/ exists y, f x = Ok y) l ->
  Exists (fun x => f x = Raise e) l ->
  map_res f l = Raise e.
Proof.
  intros Hall Hex. induction Hex as [x l Hx | x l Hex IH]; simpl.
  - rewrite Hx. reflexivity.
  - apply Forall_cons in Hall as [[Hx | [y Hx]] Hall]; rewrite Hx; [done|].
    rewrite (IH Hall). reflexivity.
Qed.

Lemma key_of_Some f s : key_of f = Some s <-> f !! "key" = Some (VStr s).
Proof.
  unfold key_of. destruct (f !! "key") as [[?|?]|]; split; congruence.
Qed.

Lemma str_key_Some f s : key_of f = Some s -> str_key f = Ok s.
Proof.
  intros H%key_of_Some. unfold str_key, getitem. rewrite H. reflexivity.
Qed.

Lemma skey_Some f s : key_of f = Some s -> skey f = s.
Proof. unfold skey. intros ->. reflexivity. Qed.

Lemma sorted_by_key_ok files :
  Forall (fun f => is_Some (key_of f)) files ->
  sorted_by_key files = Ok (scan_order files).
Proof.
  intros Hall. unfold sorted_by_key, itemgetter_all.
  rewrite (map_res_ok _ (fun f => (VStr (skey f), f))).
  - unfold str_keys.
    rewrite (map_res_ok _ (fun kv : Value * Dict => (skey kv.2, kv.2))).
    + unfold scan_order, decorate. rewrite map_map. reflexivity.
    + apply Forall_fmap, Forall_true. intros f. reflexivity.
  - eapply Forall_impl; [exact Hall|]. intros f [s Hs]. simpl.
    rewrite (skey_Some _ _ Hs). apply key_of_Some in Hs.
    unfold getitem. rewrite Hs. reflexivity.
Qed.

Lemma sorted_by_key_KeyError files :
  Exists (fun f : Dict => f !! "key" = None) files ->
  sorted_by_key files = Raise KeyError.
Proof.
  intros Hex. unfold sorted_by_key, itemgetter_all.
  rewrite (map_res_raise _ KeyError); [reflexivity| |].
  - apply Forall_true. intros f. unfold getitem.
    destruct (f !! "key"); eauto.
  - eapply Exists_impl; [exact Hex|]. intros f Hf. simpl.
    unfold getitem. rewrite Hf. reflexivity.
Qed.

Lemma sorted_by_key_TypeError files :
  Forall (fun f : Dict => is_Some (f !! "key")) files ->
  Exists (fun f => key_of f = None) files ->
  sorted_by_key files = Raise TypeError.
Proof.
  intros Hall Hex. unfold sorted_by_key, itemgetter_all.
  rewrite (map_res_ok _ (fun f : Dict =>
                           (default (VInt 0) (f !! "key"), f))).
  - unfold str_keys. rewrite (map_res_raise _ TypeError); [reflexivity| |].
    + apply Forall_true. intros [[s|z] f]; simpl; eauto.
    + apply Exists_fmap. rewrite Forall_forall in Hall.
      apply Exists_exists in Hex as (f & Hf & Hk).
      apply Exists_exists. exists f. split; [done|]. simpl.
      destruct (Hall f Hf) as [v Hv]. unfold key_of in Hk.
      rewrite Hv in *. simpl. destruct v; [discriminate|reflexivity].
  - eapply Forall_impl; [exact Hall|]. intros f [v Hv]. simpl.
    unfold getitem. rewrite Hv. reflexivity.
Qed.

Section SelectorFacts.

Variable is_previewable : string -> bool.
Implicit Types (f g : Dict) (l files : list Dict)
  (d default_preview : option string) (sel selected : option Dict).

Lemma select_step_scan d f sel :
  is_Some (key_of f) ->
  select_step is_previewable d f sel
  = (Ok tt, scan_step is_previewable d sel f).
Proof.
  intros [s Hs]. unfold select_step, scan_step, previewable, bind, lift.
  rewrite (str_key_Some _ _ Hs), (skey_Some _ _ Hs).
  destruct (is_previewable (file_type s)); [|reflexivity].
  unfold get. destruct sel as [g|]; [|reflexivity].
  destruct (decide (Some s = d)); reflexivity.
Qed.

Lemma for_each_scan d l sel :
  Forall (fun f => is_Some (key_of f)) l ->
  for_each l (select_step is_previewable d) sel
  = (Ok tt, scan is_previewable d l sel).
Proof.
  intros Hall. revert sel.
  induction Hall as [|f l Hf _ IH]; intros sel; [reflexivity|].
  simpl. unfold bind at 1. rewrite (select_step_scan _ _ _ Hf).
  apply IH.
Qed.

(** With a string key on every descriptor the selector is the scan of the
    descriptors in ascending key order. *)
Lemma select_preview_file_scan files d :
  Forall (fun f => is_Some (key_of f)) files ->
  select_preview_file is_previewable (Some files) d
  = Ok (scan is_previewable d (scan_order files) None).
Proof.
  intros Hall. unfold select_preview_file, try_except, bind, lift. simpl.
  rewrite (sorted_by_key_ok _ Hall).
  rewrite for_each_scan; [reflexivity|].
  rewrite scan_order_perm. exact Hall.
Qed.

(** A descriptor without ['key'] makes [sorted] raise [KeyError] before the
    loop starts; the handler leaves [selected] at [None]. *)
Lemma select_preview_file_KeyError files d :
  Exists (fun f : Dict => f !! "key" = None) files ->
  select_preview_file is_previewable (Some files) d = Ok None.
Proof.
  intros Hex. unfold select_preview_file, try_except, bind, lift. simpl.
  rewrite (sorted_by_key_KeyError _ Hex). reflexivity.
Qed.

Lemma select_preview_file_TypeError files d :
  Forall (fun f : Dict => is_Some (f !! "key")) files ->
  Exists (fun f => key_of f = None) files ->
  select_preview_file is_previewable (Some files) d = Raise TypeError.
Proof.
  intros Hall Hex. unfold select_preview_file, try_except, bind, lift.
  simpl. rewrite (sorted_by_key_TypeError _ Hall Hex). reflexivity.
Qed.

End SelectorFacts.

(** ** What the scan selects *)

Section ScanFacts.

Variable is_previewable : string -> bool.
Implicit Types (f g : Dict) (l files : list Dict)
  (d : string) (sel : option Dict).

Let pv := previewable is_previewable.

Lemma scan_cons dp f l sel :
  scan is_previewable dp (f :: l) sel
  = scan is_previewable dp l (scan_step is_previewable dp sel f).
Proof. reflexivity. Qed.

(** Once a descriptor is selected, only the default can replace it. *)
Lemma scan_from_Some d l f g :
  scan is_previewable (Some d) l (Some f) = Some g ->
  g = f \/ (g ∈ l /\ skey g = d /\ pv g = true).
Proof.
  revert f. induction l as [|x l IH]; intros f.
  - intros [= ->]. left. reflexivity.
  - rewrite scan_cons. unfold scan_step.
    destruct (previewable is_previewable x) eqn:Hx.
    + destruct (decide (Some (skey x) = Some d)) as [[= Hk]|Hk].
      * intros [-> | (Hg & Hgk & Hgp)]%IH.
        -- right. repeat split; [left|done..].
        -- right. repeat split; [by right|done..].
      * intros [-> | (Hg & Hgk & Hgp)]%IH; [by left|].
        right. repeat split; [by right|done..].
    + intros [-> | (Hg & Hgk & Hgp)]%IH; [by left|].
      right. repeat split; [by right|done..].
Qed.

Lemma scan_from_Some_is_Some dp l f :
  is_Some (scan is_previewable dp l (Some f)).
Proof.
  revert f. induction l as [|x l IH]; intros f; [by eexists|].
  rewrite scan_cons. unfold scan_step.
  destruct (previewable is_previewable x); [|apply IH].
  destruct (decide (Some (skey x) = dp)); apply IH.
Qed.

(** A previewable descriptor whose key is the default is selected,
    whatever was selected before it was reached. *)
Lemma scan_default d l sel f :
  f ∈ l -> skey f = d -> pv f = true ->
  exists g, scan is_previewable (Some d) l sel = Some g /\
            g ∈ l /\ skey g = d /\ pv g = true.
Proof.
  intros Hin Hk Hp. revert sel.
  induction Hin as [f l | f x l Hin IH]; intros sel.
  - rewrite scan_cons.
    assert (Hstep : scan_step is_previewable (Some d) sel f = Some f).
    { unfold scan_step. fold pv. rewrite Hp.
      destruct sel; [|reflexivity].
      rewrite decide_True by congruence. reflexivity. }
    rewrite Hstep.
    destruct (scan_from_Some_is_Some (Some d) l f) as [g Hg].
    exists g. split; [exact Hg|].
    apply scan_from_Some in Hg as [-> | (Hg & Hgk & Hgp)].
    + repeat split; [left|done..].
    + repeat split; [by right|done..].
  - rewrite scan_cons.
    destruct (IH Hk Hp (scan_step is_previewable (Some d) sel x))
      as (g & Hg & Hgl & Hgk & Hgp).
    exists g. repeat split; [done|by right|done..].
Qed.

Lemma scan_no_default_Some l f :
  scan is_previewable None l (Some f) = Some f.
Proof.
  induction l as [|x l IH]; [reflexivity|].
  rewrite scan_cons. unfold scan_step.
  destruct (previewable is_previewable x); [|exact IH].
  rewrite decide_False by discriminate. exact IH.
Qed.

(** Without a default, the scan of a list in ascending key order selects
    the previewable descriptor with the smallest key. *)
Lemma scan_no_default_smallest l :
  StronglySorted (fun f g => String.leb (skey f) (skey g) = true) l ->
  smallest_previewable pv l (scan is_previewable None l None).
Proof.
  induction 1 as [|x l Hs IH Hx].
  - intros g Hg. by apply elem_of_nil in Hg.
  - rewrite scan_cons. unfold scan_step.
    destruct (previewable is_previewable x) eqn:Hpx.
    + rewrite scan_no_default_Some. simpl. repeat split; [left|done|].
      intros g [->|Hg]%elem_of_cons _; [apply string_leb_refl|].
      rewrite Forall_forall in Hx. by apply Hx.
    + destruct (scan is_previewable None l None) as [f|]; simpl in *.
      * destruct IH as (Hf & Hpf & Hmin). repeat split; [by right|done|].
        intros g [->|Hg]%elem_of_cons Hpg; [|by apply Hmin].
        unfold pv in Hpg. congruence.
      * intros g [->|Hg]%elem_of_cons; [done|by apply IH].
Qed.

Lemma smallest_previewable_perm pvf l1 l2 r :
  l1 ≡ₚ l2 -> smallest_previewable pvf l1 r -> smallest_previewable pvf l2 r.
Proof.
  intros Hp. destruct r as [f|]; simpl.
  - intros (Hf & Hpf & Hmin). rewrite <- Hp. repeat split; [done..|].
    intros g Hg. apply Hmin. by rewrite Hp.
  - intros Hn g Hg. apply Hn. by rewrite Hp.
Qed.

End ScanFacts.

Lemma NoDup_fmap_elem_inj {A B} (h : A -> B) (l : list A) x y :
  NoDup (h <$> l) -> x ∈ l -> y ∈ l -> h x = h y -> x = y.
Proof.
  induction l as [|z l IH]; simpl; intros Hnd Hx Hy Hxy.
  - by apply elem_of_nil in Hx.
  - apply NoDup_cons in Hnd as [Hz Hnd].
    apply elem_of_cons in Hx as [->|Hx]; apply elem_of_cons in Hy as [->|Hy].
    + reflexivity.
    + exfalso. apply Hz. rewrite Hxy. apply list_elem_of_fmap. eauto.
    + exfalso. apply Hz. rewrite <- Hxy. apply list_elem_of_fmap. eauto.
    + by apply IH.
Qed.

(** Two orderings of descriptors with distinct keys are sorted into the
    same list. *)
Lemma scan_order_unique fs gs :
  fs ≡ₚ gs ->
  NoDup ((fun f : Dict => f !! "key") <$> fs) ->
  Forall (fun f => is_Some (key_of f)) fs ->
  scan_order fs = scan_order gs.
Proof.
  intros Hp Hnd Hall. unfold scan_order. f_equal.
  apply (StronglySorted_unique_strong key_le);
    [|apply sort_by_key_strongly_sorted..|].
  - intros x1 x2 [Hk1 Hx1]%elem_of_sorted_decorate
      [Hk2 Hx2]%elem_of_sorted_decorate H12 H21.
    rewrite <- Hp in Hx2.
    pose proof (String.leb_antisym _ _ H12 H21) as Hk.
    assert (x1.2 = x2.2) as Hf.
    { eapply NoDup_fmap_elem_inj; [exact Hnd|done..|]. simpl.
      rewrite Forall_forall in Hall.
      destruct (Hall _ Hx1) as [s1 Hs1]. destruct (Hall _ Hx2) as [s2 Hs2].
      rewrite (skey_Some _ _ Hs1) in Hk1. rewrite (skey_Some _ _ Hs2) in Hk2.
      apply key_of_Some in Hs1, Hs2. rewrite Hs1, Hs2. congruence. }
    destruct x1, x2; simpl in *; congruence.
  - rewrite !sort_by_key_perm. unfold decorate. by rewrite Hp.
Qed.

(** ** The extension of ordinary keys *)

Lemma rfind_from_bounds c s i :
  rfind_from c s i = -1 \/
  (i <= rfind_from c s i < i + Z.of_nat (String.length s)).
Proof.
  revert i. induction s as [|a s IH]; intros i; simpl; [by left|].
  destruct (IH (i + 1)) as [Hr | Hr].
  - rewrite Hr. simpl. destruct (Ascii.eqb a c); [right; lia|by left].
  - destruct (Z.leb_spec 0 (rfind_from c s (i + 1))); [right; lia|].
    destruct (Ascii.eqb a c); [right; lia|by left].
Qed.

Lemma substring_whole s : String.substring 0 (String.length s) s = s.
Proof. induction s as [|a s IH]; simpl; [reflexivity|]. by rewrite IH. Qed.

Lemma slice_from_0 s : slice_from s 0 = s.
Proof.
  unfold slice_from, slice. rewrite Z.sub_0_r, Nat2Z.id.
  apply substring_whole.
Qed.

Lemma slice_from_cons a s i :
  0 <= i -> slice_from (String a s) (i + 1) = slice_from s i.
Proof.
  intros Hi. unfold slice_from, slice.
  replace (Z.to_nat (i + 1)) with (S (Z.to_nat i)) by lia. simpl.
  f_equal. lia.
Qed.

Lemma slice_from_slice_from s i :
  0 <= i < Z.of_nat (String.length s) ->
  slice_from (slice_from s i) 1 = slice_from s (i + 1).
Proof.
  intros Hi. rewrite <- (Z2Nat.id i) in * by lia.
  generalize dependent (Z.to_nat i). clear i. intros n. revert s.
  induction n as [|n IH]; intros s Hn.
  - simpl. by rewrite slice_from_0.
  - destruct s as [|a s]; simpl in Hn; [lia|].
    rewrite Nat2Z.inj_succ, <- Z.add_1_r.
    rewrite !slice_from_cons by lia. apply IH. lia.
Qed.

(** For a key without ['/'] that does not start with a dot, the extension
    of the code is the substring after the last dot, as the specification
    words it. *)
Lemma file_type_ordinary_key (key : string) :
  rfind key "/" = -1 ->
  String.prefix "." key = false ->
  file_type key = spec_extension key.
Proof.
  intros Hsep Hdot. unfold file_type, spec_extension, splitext.
  rewrite Hsep. destruct key as [|a s]; [reflexivity|].
  assert (Ha : Ascii.eqb a "." = false).
  { simpl in Hdot. destruct (Ascii.ascii_dec "." a) as [<-|Hne].
    - by destruct s.
    - apply Ascii.eqb_neq. congruence. }
  set (key := String a s) in *.
  destruct (rfind_from_bounds "." s 1) as [Hr | Hr].
  - assert (Hd : rfind key "." = -1).
    { unfold rfind, key. simpl. change (0 + 1) with 1.
      rewrite Hr. simpl. by rewrite Ha. }
    rewrite Hd. reflexivity.
  - assert (Hd : rfind key "." = rfind_from "." s 1).
    { unfold rfind, key. simpl. change (0 + 1) with 1.
      destruct (Z.leb_spec 0 (rfind_from "." s 1)); [reflexivity|lia]. }
    rewrite Hd. set (r := rfind_from "." s 1) in *.
    destruct (Z.ltb_spec (-1) r); [|lia].
    destruct (Z.ltb_spec r 0); [lia|].
    replace (Z.to_nat (r - (-1 + 1))) with (S (Z.to_nat (r - 1))) by lia.
    simpl. unfold slice at 1. simpl. rewrite Ha. simpl.
    f_equal. apply slice_from_slice_from. unfold key. simpl. lia.
Qed.

(** ** The selector: examples and claims *)

Example splitext_png : splitext "photo.PNG" = ("photo", ".PNG").
Proof. reflexivity. Qed.
Example splitext_two_dots : splitext "a.tar.gz" = ("a.tar", ".gz").
Proof. reflexivity. Qed.
Example splitext_dotfile : splitext ".png" = (".png", "").
Proof. reflexivity. Qed.
Example splitext_dir_dot : splitext "v1.2/readme" = ("v1.2/readme", "").
Proof. reflexivity. Qed.
Example splitext_dir_dotfile : splitext "d/..a.b" = ("d/..a", ".b").
Proof. reflexivity. Qed.
Example file_type_png : file_type "photo.PNG" = "png".
Proof. reflexivity. Qed.
Example file_type_none : file_type "README" = "".
Proof. reflexivity. Qed.
Example spec_extension_png : spec_extension "photo.PNG" = "png".
Proof. reflexivity. Qed.

Example select_default_wins :
  select_preview_file images_and_text
    (Some [file_desc "b.png" 1; file_desc "a.txt" 2]) (Some "b.png")
  = Ok (Some (file_desc "b.png" 1)).
Proof. vm_compute. reflexivity. Qed.

Example select_first_match :
  select_preview_file images_and_text
    (Some [file_desc "c.pdf" 1; file_desc "a.jpg" 2]) None
  = Ok (Some (file_desc "a.jpg" 2)).
Proof. vm_compute. reflexivity. Qed.

Example select_equal_keys_keep_input_order :
  select_preview_file images_and_text
    (Some [file_desc "a.png" 1; file_desc "a.png" 2]) None
  = Ok (Some (file_desc "a.png" 1)).
Proof. vm_compute. reflexivity. Qed.

Example select_int_key :
  select_preview_file images_and_text
    (Some [<["key" := VInt 7]> ∅]) None
  = Raise TypeError.
Proof. vm_compute. reflexivity. Qed.

(** C1, as stated, fails: with the descriptors [a.png] and one without
    ['key'], the selector does not return what it returns on [a.png] alone;
    the descriptor without ['key'] is not skipped. *)
Lemma select_preview_file_keyless_not_skipped :
  ~ skips_keyless images_and_text [file_desc "a.png" 1; no_key_desc 2] None.
Proof. unfold skips_keyless. vm_compute. discriminate. Qed.

(** C1, amended: when some descriptor of the input has no ['key'], the
    selector raises nothing and returns none, whatever the other
    descriptors and the default are: the [KeyError] raised while sorting is
    caught outside the loop, before any descriptor has been examined. *)
Theorem select_preview_file_keyless_aborts
    (is_previewable : string -> bool) (files : list Dict)
    (default_preview : option string) :
  Exists (fun f : Dict => f !! "key" = None) files ->
  select_preview_file is_previewable (Some files) default_preview = Ok None.
Proof. apply select_preview_file_KeyError. Qed.

Lemma select_preview_file_keyless_aborts_witness :
  Exists (fun f : Dict => f !! "key" = None)
    [file_desc "a.png" 1; no_key_desc 2] /\
  select_preview_file images_and_text
    (Some [file_desc "a.png" 1; no_key_desc 2]) (Some "a.png") = Ok None.
Proof.
  assert (H : Exists (fun f : Dict => f !! "key" = None)
                [file_desc "a.png" 1; no_key_desc 2]).
  { apply Exists_cons_tl, Exists_cons_hd. reflexivity. }
  split; [exact H|].
  exact (select_preview_file_keyless_aborts images_and_text _ _ H).
Defined.

(** C4: when every descriptor has a key and [default_preview] is the key of
    a previewable descriptor of the list, the selector returns a descriptor
    of the list whose key is [default_preview]; with keys unique in the
    list, it is that very descriptor.  Descriptors with smaller keys,
    previewable or not, do not matter. *)
Theorem select_preview_file_default_precedence
    (is_previewable : string -> bool) (files : list Dict)
    (default_preview : string) (f : Dict) :
  Forall (fun f => is_Some (key_of f)) files ->
  f ∈ files ->
  key_of f = Some default_preview ->
  previewable is_previewable f = true ->
  exists g,
    select_preview_file is_previewable (Some files) (Some default_preview)
    = Ok (Some g) /\
    g ∈ files /\
    key_of g = Some default_preview /\
    (NoDup (key_of <$> files) -> g = f).
Proof.
  intros Hall Hf Hk Hp.
  rewrite (select_preview_file_scan _ _ _ Hall).
  destruct (scan_default is_previewable default_preview (scan_order files)
              None f) as (g & Hg & Hgl & Hgk & Hgp).
  { by rewrite scan_order_perm. }
  { by apply skey_Some. }
  { exact Hp. }
  rewrite scan_order_perm in Hgl.
  assert (Hgk' : key_of g = Some default_preview).
  { rewrite Forall_forall in Hall. destruct (Hall g Hgl) as [s Hs].
    rewrite (skey_Some _ _ Hs) in Hgk. congruence. }
  exists g. repeat split; [by rewrite Hg|done..|].
  intros Hnd. eapply NoDup_fmap_elem_inj; [exact Hnd|done..|congruence].
Qed.

Lemma select_preview_file_default_precedence_witness :
  exists g,
    select_preview_file images_and_text
      (Some [file_desc "b.png" 1; file_desc "a.txt" 2]) (Some "b.png")
    = Ok (Some g) /\
    g ∈ [file_desc "b.png" 1; file_desc "a.txt" 2] /\
    key_of g = Some "b.png" /\
    (NoDup (key_of <$> [file_desc "b.png" 1; file_desc "a.txt" 2]) ->
     g = file_desc "b.png" 1).
Proof.
  apply (select_preview_file_default_precedence images_and_text
           [file_desc "b.png" 1; file_desc "a.txt" 2] "b.png"
           (file_desc "b.png" 1)).
  - repeat constructor; vm_compute; eauto.
  - left.
  - reflexivity.
  - reflexivity.
Defined.

(** C5, as stated, fails: for the single file [.png] and a previewer that
    renders [png], the substring after the last dot is [png], so the
    descriptor would be the one to return; the selector returns none, since
    [splitext] gives a name made of a leading dot no extension. *)
Lemma select_preview_file_not_after_last_dot :
  ~ exists r,
      select_preview_file png_only (Some [file_desc ".png" 1]) None = Ok r /\
      smallest_previewable (spec_previewable png_only)
        [file_desc ".png" 1] r.
Proof.
  intros (r & Hr & Hs).
  assert (Hsel : select_preview_file png_only
                   (Some [file_desc ".png" 1]) None = Ok None)
    by (vm_compute; reflexivity).
  rewrite Hsel in Hr. injection Hr as <-.
  specialize (Hs (file_desc ".png" 1) ltac:(left)).
  vm_compute in Hs. discriminate.
Qed.

(** C5, amended: with a key on every descriptor and no default, the
    selector returns the previewable descriptor with the smallest key,
    where a descriptor is previewable when the external predicate accepts
    the lowercased extension that [os.path.splitext] gives for its key (the
    part after the last dot of the last path component, empty when that
    component has no dot after its leading dots); it returns none exactly
    when no descriptor is previewable, so also for an empty list and for
    none. *)
Theorem select_preview_file_first_match
    (is_previewable : string -> bool) (files : option (list Dict)) :
  Forall (fun f => is_Some (key_of f)) (or_empty files) ->
  exists r,
    select_preview_file is_previewable files None = Ok r /\
    smallest_previewable (previewable is_previewable) (or_empty files) r /\
    (r = None <->
     forall g, g ∈ or_empty files -> previewable is_previewable g = false).
Proof.
  intros Hall.
  assert (Hsel : select_preview_file is_previewable files None
                 = select_preview_file is_previewable
                     (Some (or_empty files)) None)
    by (destruct files; reflexivity).
  rewrite Hsel, (select_preview_file_scan _ _ _ Hall).
  pose proof (scan_no_default_smallest is_previewable _
                (scan_order_sorted (or_empty files))) as Hs.
  apply (smallest_previewable_perm _ _ _ _ (scan_order_perm _)) in Hs.
  eexists. split; [reflexivity|]. split; [exact Hs|].
  destruct (scan is_previewable None (scan_order (or_empty files)) None)
    as [f|]; simpl in Hs.
  - destruct Hs as (Hf & Hpf & _). split; [discriminate|].
    intros Hn. rewrite (Hn f Hf) in Hpf. discriminate.
  - split; [intros _; exact Hs|reflexivity].
Qed.

Lemma select_preview_file_first_match_witness :
  exists r,
    select_preview_file images_and_text
      (Some [file_desc "c.pdf" 1; file_desc "a.jpg" 2]) None = Ok r /\
    smallest_previewable (previewable images_and_text)
      [file_desc "c.pdf" 1; file_desc "a.jpg" 2] r /\
    (r = None <->
     forall g, g ∈ [file_desc "c.pdf" 1; file_desc "a.jpg" 2] ->
               previewable images_and_text g = false).
Proof.
  apply (select_preview_file_first_match images_and_text
           (Some [file_desc "c.pdf" 1; file_desc "a.jpg" 2])).
  repeat constructor; vm_compute; eauto.
Defined.

(** C6: for descriptors whose ['key'] entries are pairwise different and a
    fixed default, the selector gives the same result on every ordering of
    the descriptors. *)
Theorem select_preview_file_permutation
    (is_previewable : string -> bool) (fs gs : list Dict)
    (default_preview : option string) :
  fs ≡ₚ gs ->
  NoDup ((fun f : Dict => f !! "key") <$> fs) ->
  select_preview_file is_previewable (Some fs) default_preview
  = select_preview_file is_previewable (Some gs) default_preview.
Proof.
  intros Hp Hnd.
  destruct (Forall_Exists_dec (fun f : Dict => is_Some (f !! "key"))
              (fun f : Dict => f !! "key" = None)
              (fun f : Dict =>
                 match f !! "key" as o
                   return {is_Some o} + {o = None} with
                 | Some v => left (ex_intro _ v eq_refl)
                 | None => right eq_refl
                 end) fs) as [Hpresent | Hmissing].
  - destruct (Forall_Exists_dec (fun f => is_Some (key_of f))
                (fun f => key_of f = None)
                (fun f =>
                   match key_of f as o
                     return {is_Some o} + {o = None} with
                   | Some s => left (ex_intro _ s eq_refl)
                   | None => right eq_refl
                   end) fs) as [Hstr | Hbad].
    + rewrite !select_preview_file_scan; [|by rewrite <- Hp|done].
      by rewrite (scan_order_unique fs gs).
    + rewrite !select_preview_file_TypeError;
        [reflexivity|by rewrite <- Hp..|done|done].
  - rewrite !select_preview_file_KeyError; [reflexivity|by rewrite <- Hp|done].
Qed.

Lemma select_preview_file_permutation_witness :
  [file_desc "b.png" 1; file_desc "a.txt" 2]
    ≡ₚ [file_desc "a.txt" 2; file_desc "b.png" 1] /\
  NoDup ((fun f : Dict => f !! "key")
           <$> [file_desc "b.png" 1; file_desc "a.txt" 2]) /\
  select_preview_file images_and_text
    (Some [file_desc "b.png" 1; file_desc "a.txt" 2]) None
  = select_preview_file images_and_text
      (Some [file_desc "a.txt" 2; file_desc "b.png" 1]) None.
Proof.
  assert (Hp : [file_desc "b.png" 1; file_desc "a.txt" 2]
                 ≡ₚ [file_desc "a.txt" 2; file_desc "b.png" 1])
    by apply Permutation_swap.
  assert (Hnd : NoDup ((fun f : Dict => f !! "key")
                         <$> [file_desc "b.png" 1; file_desc "a.txt" 2])).
  { apply (bool_decide_unpack _). vm_compute. exact I. }
  split; [exact Hp|]. split; [exact Hnd|].
  exact (select_preview_file_permutation images_and_text _ _ None Hp Hnd).
Defined.

(** ** The normalizers *)

Lemma mapping_getitem_NoDup {A} (m : list (string * A)) k v :
  NoDup (m.*1) -> (k, v) ∈ m -> mapping_getitem m k = Ok v.
Proof.
  induction m as [|[k' v'] m IH]; simpl; intros Hnd Hin.
  - by apply elem_of_nil in Hin.
  - apply NoDup_cons in Hnd as [Hk' Hnd].
    apply elem_of_cons in Hin as [[= -> ->]|Hin].
    + rewrite String.eqb_refl. reflexivity.
    + destruct (String.eqb_spec k' k) as [->|_]; [|by apply IH].
      exfalso. apply Hk'. apply list_elem_of_fmap. by exists (k, v).
Qed.

Lemma make_files_preview_compatible_on (files l : RecordFiles) :
  Forall (fun e => mapping_getitem files e.1 = Ok e.2) l ->
  map_res (fun file =>
             match mapping_getitem files file with
             | Ok rf =>
                 Ok (FileObject_dumps
                       {| obj := object_version rf; data := ∅ |})
             | Raise e => Raise e
             end) (map fst l)
  = Ok (map (fun e => FileObject_dumps
                        {| obj := object_version e.2; data := ∅ |}) l).
Proof.
  induction 1 as [|e l He _ IH]; simpl; [reflexivity|].
  rewrite He, IH. reflexivity.
Qed.

Lemma or_empty_dict_metadata (rf : RecordFile) :
  or_empty_dict (metadata rf) = metadata_or_empty rf.
Proof.
  unfold or_empty_dict, metadata_or_empty.
  destruct (metadata rf) as [d|]; simpl; [|reflexivity].
  destruct (decide (d = ∅)); congruence.
Qed.

Example make_files_preview_compatible_sample :
  make_files_preview_compatible (files sample_record)
  = Ok [ <["bucket" := VStr "bucket-1"]>
         (<["checksum" := VStr "md5:bbbb"]>
         (<["file_id" := VStr "file-1"]>
         (<["key" := VStr "report.pdf"]>
         (<["size" := VInt 4]>
         (<["version_id" := VStr "v1"]> ∅)))));
         <["bucket" := VStr "bucket-1"]>
         (<["checksum" := VStr "md5:cccc"]>
         (<["file_id" := VStr "file-2"]>
         (<["key" := VStr "notes.txt"]>
         (<["size" := VInt 2]>
         (<["version_id" := VStr "v7"]> ∅))))) ].
Proof. vm_compute. reflexivity. Qed.

(** C7, as stated, fails: for the sample record, whose first entry has a
    description and a checksum as metadata, the first output of
    [make_files_preview_compatible] is not that metadata. *)
Lemma make_files_preview_compatible_drops_metadata :
  ~ normalizers_keep_metadata (files sample_record).
Proof.
  intros [(outs & Hout & Hall) _].
  rewrite make_files_preview_compatible_sample in Hout.
  injection Hout as <-.
  apply Forall2_cons_1 in Hall as [Hhd _].
  apply (f_equal (fun d : Dict => d !! "description")) in Hhd.
  vm_compute in Hhd. discriminate.
Qed.

(** C7, amended: for every file collection (a mapping, so its keys are
    pairwise different) both transforms give exactly one output per entry,
    in the order of the entries.  An output of [to_previewer_files] holds
    the entry's object version and, as data, the entry's metadata when
    present and an empty mapping when absent.  An output of
    [make_files_preview_compatible] is the dump of a [FileObject] made of
    the entry's object version and an empty mapping, which holds what
    [dumps] writes from the object version ([bucket], [checksum],
    [file_id], [key], [size], [version_id]): the metadata does not enter
    it. *)
Theorem normalizers_one_output_per_entry (fs : RecordFiles) :
  NoDup (fs.*1) ->
  (exists outs,
     make_files_preview_compatible fs = Ok outs /\
     length outs = length fs /\
     outs = map (fun e => FileObject_dumps
                            {| obj := object_version e.2; data := ∅ |}) fs) /\
  length (to_previewer_files {| files := fs |}) = length fs /\
  to_previewer_files {| files := fs |}
  = map (fun e => {| obj := object_version e.2;
                     data := metadata_or_empty e.2 |}) fs.
Proof.
  intros Hnd. split.
  - eexists. split; [|split; [|reflexivity]].
    + unfold make_files_preview_compatible.
      apply make_files_preview_compatible_on.
      apply Forall_forall. intros [k v] Hin. simpl.
      by apply mapping_getitem_NoDup.
    + by rewrite length_map.
  - unfold to_previewer_files. simpl. rewrite !length_map.
    split; [reflexivity|]. rewrite map_map.
    apply map_ext. intros e. by rewrite or_empty_dict_metadata.
Qed.

Lemma normalizers_one_output_per_entry_witness :
  NoDup ((files sample_record).*1) /\
  ((exists outs,
      make_files_preview_compatible (files sample_record) = Ok outs /\
      length outs = length (files sample_record) /\
      outs = map (fun e => FileObject_dumps
                             {| obj := object_version e.2; data := ∅ |})
               (files sample_record)) /\
   length (to_previewer_files {| files := files sample_record |})
   = length (files sample_record) /\
   to_previewer_files {| files := files sample_record |}
   = map (fun e => {| obj := object_version e.2;
                      data := metadata_or_empty e.2 |})
       (files sample_record)).
Proof.
  assert (Hnd : NoDup ((files sample_record).*1)).
  { apply (bool_decide_unpack _). vm_compute. exact I. }
  split; [exact Hnd|].
  exact (normalizers_one_output_per_entry (files sample_record) Hnd).
Defined.

(** ** [pid_url] *)

Example pid_url_doi :
  pid_url detect_doi to_url_doi (Some "10.5281/zenodo.1") None "https" []
  = (Ok "https://doi.org/10.5281/zenodo.1",
     [EvDetectIdentifierSchemes (Some "10.5281/zenodo.1");
      EvToUrl "10.5281/zenodo.1" "doi" "https"]).
Proof. reflexivity. Qed.

Example pid_url_unknown_scheme :
  pid_url detect_doi to_url_doi (Some "hello") None "https" []
  = (Ok "", [EvDetectIdentifierSchemes (Some "hello")]).
Proof. reflexivity. Qed.

Example pid_url_generation_fails :
  pid_url detect_doi to_url_failing (Some "10.5281/zenodo.1") None "https" []
  = (Ok "",
     [EvDetectIdentifierSchemes (Some "10.5281/zenodo.1");
      EvToUrl "10.5281/zenodo.1" "doi" "https";
      EvLogWarning "URL generation for identifier 10.5281/zenodo.1 failed."]).
Proof. reflexivity. Qed.

Example pid_url_none_with_scheme :
  pid_url detect_doi to_url_doi None (Some "doi") "https" [] = (Ok "", []).
Proof. reflexivity. Qed.

(** C10, as stated, fails: with no scheme given and [None] as identifier,
    the exception of scheme detection is not an [IndexError] and leaves
    [pid_url]. *)
Lemma pid_url_propagates_detection_error :
  ~ pid_url_returns detect_doi to_url_doi None None "https".
Proof. intros (s & tr & H). vm_compute in H. discriminate. Qed.

Section PidUrlFacts.

Variable detect_identifier_schemes : option string -> Res (list string).
Variable to_url : string -> string -> string -> Res string.
Implicit Types (identifier scheme : option string) (tr : Trace).

(** With a scheme at hand the exception handler around URL generation
    leaves nothing to propagate. *)
Lemma pid_url_scheme_returns identifier sc url_scheme tr :
  exists s tr',
    pid_url detect_identifier_schemes to_url identifier (Some sc)
      url_scheme tr = (Ok s, tr').
Proof.
  unfold pid_url, bind, try_except, call, lift, ret, log_warning, call.
  simpl. destruct identifier as [i|]; [|eauto].
  destruct (negb (String.eqb sc "") && negb (String.eqb i "")); [|eauto].
  destruct (to_url i sc url_scheme); simpl; eauto.
Qed.

Lemma pid_url_scheme_falsy identifier sc url_scheme tr :
  falsy identifier = true ->
  pid_url detect_identifier_schemes to_url identifier (Some sc)
    url_scheme tr = (Ok "", tr).
Proof.
  unfold pid_url, bind, try_except, call, lift, ret, falsy. simpl.
  destruct identifier as [i|]; [|reflexivity].
  intros ->. rewrite andb_false_r. reflexivity.
Qed.

(** Without a scheme, detection runs first; only its [IndexError] (from
    [[0]] on an empty list) is handled. *)
Lemma pid_url_detect identifier url_scheme tr :
  pid_url detect_identifier_schemes to_url identifier None url_scheme tr
  = let detected := (tr ++ [EvDetectIdentifierSchemes identifier])%list in
    match detect_identifier_schemes identifier with
    | Ok (s :: _) =>
        pid_url detect_identifier_schemes to_url identifier (Some s)
          url_scheme detected
    | Ok [] => (Ok "", detected)
    | Raise e =>
        if is_IndexError e then (Ok "", detected) else (Raise e, detected)
    end.
Proof.
  unfold pid_url, bind, try_except, call, lift, ret. simpl.
  destruct (detect_identifier_schemes identifier) as [[|s l]|e];
    simpl; try reflexivity.
  destruct (is_IndexError e); reflexivity.
Qed.

(** The outcome with a scheme at hand, path by path. *)
Lemma pid_url_scheme_exact identifier sc url_scheme tr :
  pid_url detect_identifier_schemes to_url identifier (Some sc) url_scheme tr
  = match identifier with
    | Some i =>
        if negb (String.eqb sc "") && negb (String.eqb i "") then
          match to_url i sc url_scheme with
          | Ok u => (Ok u, (tr ++ [EvToUrl i sc url_scheme])%list)
          | Raise _ =>
              (Ok "",
               (tr ++ [EvToUrl i sc url_scheme;
                       EvLogWarning ("URL generation for identifier "
                                       ++ i ++ " failed.")%string])%list)
          end
        else (Ok "", tr)
    | None => (Ok "", tr)
    end.
Proof.
  unfold pid_url, bind, try_except, call, lift, ret, log_warning, call.
  simpl. destruct identifier as [i|]; [|reflexivity].
  destruct (negb (String.eqb sc "") && negb (String.eqb i ""));
    [|reflexivity].
  destruct (to_url i sc url_scheme); simpl; [reflexivity|].
  by rewrite <- app_assoc.
Qed.

End PidUrlFacts.

(** C10, amended: [pid_url] returns a string unless scheme detection, run
    because no scheme was given, raises an exception other than
    [IndexError], which then propagates.  No exception of URL generation
    propagates: it is caught, a warning naming the identifier is logged,
    and the empty string is returned; when URL generation returns, its
    URL is returned, and no other string than these is ever returned.  For
    an empty or [None] identifier URL generation is not invoked: with a
    scheme given [pid_url] returns the empty string and invokes no
    collaborator; with none given it invokes scheme detection only, and
    returns the empty string if it returns. *)
Theorem pid_url_outcome
    (detect_identifier_schemes : option string -> Res (list string))
    (to_url : string -> string -> string -> Res string)
    (identifier scheme : option string) (url_scheme : string) (tr : Trace) :
  let run :=
    pid_url detect_identifier_schemes to_url identifier scheme url_scheme tr in
  let detected := (tr ++ [EvDetectIdentifierSchemes identifier])%list in
  ((exists s tr', run = (Ok s, tr')) \/
   (scheme = None /\
    exists e, e <> IndexError /\
              detect_identifier_schemes identifier = Raise e /\
              run = (Raise e, detected))) /\
  (falsy identifier = true ->
   match scheme with
   | Some _ => run = (Ok "", tr)
   | None =>
       run = (Ok "", detected) \/
       exists e, e <> IndexError /\
                 detect_identifier_schemes identifier = Raise e /\
                 run = (Raise e, detected)
   end) /\
  (forall i sc before,
     identifier = Some i -> i <> "" -> sc <> "" ->
     (scheme = Some sc /\ before = tr) \/
     (scheme = None /\ before = detected /\
      exists others,
        detect_identifier_schemes identifier = Ok (sc :: others)) ->
     match to_url i sc url_scheme with
     | Ok u => run = (Ok u, (before ++ [EvToUrl i sc url_scheme])%list)
     | Raise _ =>
         run = (Ok "",
                (before ++ [EvToUrl i sc url_scheme;
                            EvLogWarning ("URL generation for identifier "
                                            ++ i ++ " failed.")%string])%list)
     end) /\
  (forall s tr',
     run = (Ok s, tr') ->
     s = "" \/
     exists i sc, identifier = Some i /\ to_url i sc url_scheme = Ok s) /\
  (forall e,
     scheme = None -> detect_identifier_schemes identifier = Raise e ->
     run = (if is_IndexError e then Ok "" else Raise e, detected)).
Proof.
  cbv zeta.
  assert (Hstring : forall sc tr0 s tr',
            pid_url detect_identifier_schemes to_url identifier (Some sc)
              url_scheme tr0 = (Ok s, tr') ->
            s = "" \/
            exists i sc, identifier = Some i /\
                         to_url i sc url_scheme = Ok s).
  { intros sc tr0 s tr'. rewrite pid_url_scheme_exact.
    destruct identifier as [i|]; [|intros [= <- _]; by left].
    destruct (negb (String.eqb sc "") && negb (String.eqb i ""));
      [|intros [= <- _]; by left].
    destruct (to_url i sc url_scheme) as [u|e] eqn:Hu; intros [= <- _];
      [right; eauto|by left]. }
  assert (Hreach : forall i sc tr0,
            identifier = Some i -> i <> "" -> sc <> "" ->
            match to_url i sc url_scheme with
            | Ok u =>
                pid_url detect_identifier_schemes to_url identifier
                  (Some sc) url_scheme tr0
                = (Ok u, (tr0 ++ [EvToUrl i sc url_scheme])%list)
            | Raise _ =>
                pid_url detect_identifier_schemes to_url identifier
                  (Some sc) url_scheme tr0
                = (Ok "",
                   (tr0 ++ [EvToUrl i sc url_scheme;
                            EvLogWarning
                              ("URL generation for identifier "
                                 ++ i ++ " failed.")%string])%list)
            end).
  { intros i sc tr0 -> Hi Hsc. rewrite pid_url_scheme_exact.
    apply String.eqb_neq in Hi, Hsc. rewrite Hi, Hsc. simpl.
    by destruct (to_url i sc url_scheme). }
  destruct scheme as [sc|].
  - split; [left; apply pid_url_scheme_returns|].
    split; [apply pid_url_scheme_falsy|].
    split; [|split; [apply Hstring|discriminate]].
    intros i sc' before Hi Hne Hsc [[[= <-] ->] | [? _]]; [|discriminate].
    by apply Hreach.
  - rewrite pid_url_detect. cbv zeta.
    destruct (detect_identifier_schemes identifier) as [[|s l]|e] eqn:Hd.
    + split; [left; eauto|]. split; [intros _; by left|].
      split; [|split; [intros ? ? [= <- _]; by left|discriminate]].
      intros i sc before _ _ _ [[? _] | (_ & _ & others & ?)];
        discriminate.
    + split; [left; apply pid_url_scheme_returns|].
      split; [intros Hf; left; by apply pid_url_scheme_falsy|].
      split; [|split; [apply Hstring|discriminate]].
      intros i sc before Hi Hne Hsc [[? _] | (_ & -> & others & [= <- _])];
        [discriminate|].
      by apply Hreach.
    + destruct (is_IndexError e) eqn:He.
      * split; [left; eauto|]. split; [intros _; by left|].
        split; [|split; [intros ? ? [= <- _]; by left|]].
        -- intros i sc before _ _ _ [[? _] | (_ & _ & others & ?)];
             discriminate.
        -- intros e' _ [= <-]. by rewrite He.
      * assert (e <> IndexError) by (intros ->; discriminate).
        split; [right; split; [reflexivity|]; exists e; done|].
        split; [intros _; right; exists e; done|].
        split; [|split; [intros ? ? [=]|]].
        -- intros i sc before _ _ _ [[? _] | (_ & _ & others & ?)];
             discriminate.
        -- intros e' _ [= <-]. by rewrite He.
Qed.

Lemma pid_url_outcome_witness :
  falsy (Some "") = true /\
  pid_url detect_doi to_url_doi (Some "") None "https" []
  = (Ok "", [EvDetectIdentifierSchemes (Some "")]) /\
  pid_url detect_doi to_url_failing (Some "10.5281/zenodo.1") (Some "doi")
    "https" []
  = (Ok "",
     [EvToUrl "10.5281/zenodo.1" "doi" "https";
      EvLogWarning "URL generation for identifier 10.5281/zenodo.1 failed."]).
Proof.
  split; [reflexivity|]. split.
  - destruct (pid_url_outcome detect_doi to_url_doi (Some "") None "https"
                [])
      as (_ & Hfalsy & _).
    destruct (Hfalsy eq_refl) as [Hrun | (e & _ & Hdetect & _)].
    + exact Hrun.
    + discriminate Hdetect.
  - destruct (pid_url_outcome detect_doi to_url_failing
                (Some "10.5281/zenodo.1") (Some "doi") "https" [])
      as (_ & _ & Hgen & _).
    exact (Hgen "10.5281/zenodo.1" "doi" [] eq_refl
             ltac:(discriminate) ltac:(discriminate)
             (or_introl (conj eq_refl eq_refl))).
Defined.

(** ** [file_download_ui] *)

Section DownloadFacts.

Variable previewer_record_file_factory : RecordFileFactory.
Variable send_object :
  string -> ObjectVersion -> option Value -> LoggerData -> bool ->
  Res Response.
Variables (request_args : list (string * string))
  (pid : PersistentIdentifier) (record : RDMRecord)
  (_record_file_factory : option RecordFileFactory)
  (kwargs : gmap string string).

Let factory :=
  default previewer_record_file_factory _record_file_factory.
Let run :=
  file_download_ui previewer_record_file_factory send_object request_args
    pid record _record_file_factory kwargs.
Let resolve := EvRecordFileFactory pid record (kwargs !! "filename").

(** A resolved file is handed to [send_object] right after resolution,
    and the outcome of [send_object] is the outcome of the view. *)
Lemma file_download_ui_resolved fileobj tr :
  factory pid record (kwargs !! "filename") = Ok (Some fileobj) ->
  let o := obj fileobj in
  let logger_data :=
    {| ld_bucket_id := ov_bucket_id o; ld_pid_type := pid_type pid;
       ld_pid_value := pid_value pid |} in
  let as_attachment := bool_decide ("download" ∈ request_args.*1) in
  run tr
  = (send_object (ov_bucket_id o) o (FileObject_get_checksum fileobj)
       logger_data as_attachment,
     (tr ++ [resolve;
             EvSendObject (ov_bucket_id o) o
               (FileObject_get_checksum fileobj) logger_data
               as_attachment])%list).
Proof.
  intros Hf. subst run factory resolve. cbv zeta.
  unfold file_download_ui, bind, call. rewrite Hf.
  rewrite <- app_assoc. reflexivity.
Qed.

Lemma file_download_ui_absent tr :
  factory pid record (kwargs !! "filename") = Ok None ->
  run tr = (Raise (HTTPException 404), (tr ++ [resolve])%list).
Proof.
  intros Hf. subst run factory resolve.
  unfold file_download_ui, bind, call, raise. rewrite Hf. reflexivity.
Qed.

Lemma file_download_ui_factory_raises e tr :
  factory pid record (kwargs !! "filename") = Raise e ->
  run tr = (Raise e, (tr ++ [resolve])%list).
Proof.
  intros Hf. subst run factory resolve.
  unfold file_download_ui, bind, call. rewrite Hf. reflexivity.
Qed.

(** No path of the view consults the permission of the object. *)
Lemma file_download_ui_no_permission_check o :
  EvCheckObjectPermission o ∉ (run []).2.
Proof.
  destruct (factory pid record (kwargs !! "filename")) as [[fo|]|e] eqn:Hf.
  - rewrite (file_download_ui_resolved _ _ Hf). simpl.
    rewrite !elem_of_cons, elem_of_nil. intros [?|[?|[]]]; discriminate.
  - rewrite (file_download_ui_absent _ Hf). simpl.
    rewrite !elem_of_cons, elem_of_nil. intros [?|[]]; discriminate.
  - rewrite (file_download_ui_factory_raises _ _ Hf). simpl.
    rewrite !elem_of_cons, elem_of_nil. intros [?|[]]; discriminate.
Qed.

End DownloadFacts.

Example download_inline :
  file_download_ui lookup_factory send_object_strict [] sample_pid
    sample_record None {[ "filename" := "notes.txt" ]} []
  = (Ok {| status_code := 200; content_disposition := "inline";
           body := "hi" |},
     [EvRecordFileFactory sample_pid sample_record (Some "notes.txt");
      EvSendObject "bucket-1" notes_txt None
        {| ld_bucket_id := "bucket-1"; ld_pid_type := "recid";
           ld_pid_value := "abcde-12345" |} false]).
Proof. vm_compute. reflexivity. Qed.

Example download_attachment :
  (file_download_ui lookup_factory send_object_strict [("download", "")]
     sample_pid sample_record None {[ "filename" := "notes.txt" ]} []).1
  = Ok {| status_code := 200; content_disposition := "attachment";
          body := "hi" |}.
Proof. vm_compute. reflexivity. Qed.

Example download_strict_collaborator_refuses :
  (file_download_ui lookup_factory send_object_strict [] sample_pid
     sample_record None report_kwargs []).1
  = Raise (OtherException "IntegrityFault").
Proof. vm_compute. reflexivity. Qed.

(** C2, the view at a request of a user who may not read the files of the
    record: the file is resolved and sent, with a 200 response carrying
    the file body, and the trace shows no permission check between the
    resolution and the streaming call. *)
Theorem file_download_ui_streams_without_permission :
  can_list_files deny_all sample_record = false /\
  file_download_ui lookup_factory send_object_warning_only [] sample_pid
    sample_record None report_kwargs []
  = (Ok {| status_code := 200; content_disposition := "inline";
           body := "%PDF" |},
     [EvRecordFileFactory sample_pid sample_record (Some "report.pdf");
      EvSendObject "bucket-1" report_pdf (Some (VStr "md5:aaaa"))
        report_logger_data false]).
Proof. split; [reflexivity|]. vm_compute. reflexivity. Qed.

(** C3, as stated, fails: the entry of [report.pdf] records the checksum
    [md5:aaaa], the stored object has [md5:bbbb], and with a streaming
    collaborator that only reports a mismatch the view answers 200 with the
    body. *)
Lemma file_download_ui_serves_mismatch :
  ~ download_enforces_integrity lookup_factory send_object_warning_only []
      sample_pid sample_record None report_kwargs.
Proof.
  intros H.
  apply (H report_fileobj ltac:(vm_compute; reflexivity) "md5:aaaa"
           ltac:(reflexivity) ltac:(discriminate)
           {| status_code := 200; content_disposition := "inline";
              body := "%PDF" |});
    vm_compute; reflexivity.
Qed.

(** C3, amended: the view compares no checksums itself.  For a resolved
    file it calls the streaming collaborator once, right after resolution,
    with the recorded checksum of the resolved entry
    ([fileobj.get('checksum')], none when the entry records none) as the
    expected checksum, and its outcome, a response or a failure, is the
    outcome of that call: a mismatch fails when, and as, the collaborator
    fails on it. *)
Theorem file_download_ui_delegates_integrity
    (previewer_record_file_factory : RecordFileFactory)
    (send_object : string -> ObjectVersion -> option Value -> LoggerData ->
                   bool -> Res Response)
    (request_args : list (string * string)) (pid : PersistentIdentifier)
    (record : RDMRecord) (_record_file_factory : option RecordFileFactory)
    (kwargs : gmap string string) (fileobj : FileObject) (tr : Trace) :
  default previewer_record_file_factory _record_file_factory pid record
    (kwargs !! "filename") = Ok (Some fileobj) ->
  exists logger_data as_attachment,
    let sent :=
      send_object (ov_bucket_id (obj fileobj)) (obj fileobj)
        (FileObject_get_checksum fileobj) logger_data as_attachment in
    file_download_ui previewer_record_file_factory send_object request_args
      pid record _record_file_factory kwargs tr
    = (sent,
       (tr ++ [EvRecordFileFactory pid record (kwargs !! "filename");
               EvSendObject (ov_bucket_id (obj fileobj)) (obj fileobj)
                 (FileObject_get_checksum fileobj) logger_data
                 as_attachment])%list) /\
    ((forall c resp,
        FileObject_get_checksum fileobj = Some (VStr c) ->
        c <> ov_checksum (obj fileobj) ->
        send_object (ov_bucket_id (obj fileobj)) (obj fileobj)
          (Some (VStr c)) logger_data as_attachment <> Ok resp) ->
     mismatch_never_served
       (file_download_ui previewer_record_file_factory send_object
          request_args pid record _record_file_factory kwargs tr).1
       fileobj).
Proof.
  intros Hf. do 2 eexists. cbv zeta.
  rewrite (file_download_ui_resolved _ _ _ _ _ _ _ _ _ Hf). cbv zeta.
  split; [reflexivity|]. simpl.
  intros Hstrict c Hc Hne resp Hr. exfalso.
  apply (Hstrict c resp Hc Hne). rewrite <- Hc. exact Hr.
Qed.

Lemma file_download_ui_delegates_integrity_witness :
  lookup_factory sample_pid sample_record (report_kwargs !! "filename")
  = Ok (Some report_fileobj) /\
  (file_download_ui lookup_factory send_object_strict [] sample_pid
     sample_record None report_kwargs []).2
  = [EvRecordFileFactory sample_pid sample_record (Some "report.pdf");
     EvSendObject "bucket-1" report_pdf (Some (VStr "md5:aaaa"))
       report_logger_data false] /\
  mismatch_never_served
    (file_download_ui lookup_factory send_object_strict [] sample_pid
       sample_record None report_kwargs []).1
    report_fileobj.
Proof.
  assert (Hf : default lookup_factory None sample_pid sample_record
                 (report_kwargs !! "filename") = Ok (Some report_fileobj))
    by (vm_compute; reflexivity).
  split; [exact Hf|].
  destruct (file_download_ui_delegates_integrity lookup_factory
              send_object_strict [] sample_pid sample_record None
              report_kwargs report_fileobj [] Hf)
    as (logger_data & as_attachment & Hrun & Hserved).
  split; [vm_compute; reflexivity|].
  apply Hserved. intros c resp Hc Hne.
  injection Hc as <-. unfold send_object_strict.
  rewrite decide_False; [discriminate|].
  intros Heq. apply Hne. congruence.
Defined.

(** C8: when the record file factory answers with no file, the view fails
    with the HTTP error 404 right after the resolution: the streaming
    collaborator, the only writer of body bytes, is not called. *)
Theorem file_download_ui_not_found
    (previewer_record_file_factory : RecordFileFactory)
    (send_object : string -> ObjectVersion -> option Value -> LoggerData ->
                   bool -> Res Response)
    (request_args : list (string * string)) (pid : PersistentIdentifier)
    (record : RDMRecord) (_record_file_factory : option RecordFileFactory)
    (kwargs : gmap string string) (tr : Trace) :
  default previewer_record_file_factory _record_file_factory pid record
    (kwargs !! "filename") = Ok None ->
  file_download_ui previewer_record_file_factory send_object request_args
    pid record _record_file_factory kwargs tr
  = (Raise (HTTPException 404),
     (tr ++ [EvRecordFileFactory pid record (kwargs !! "filename")])%list).
Proof. apply file_download_ui_absent. Qed.

Lemma file_download_ui_not_found_witness :
  lookup_factory sample_pid sample_record
    (({[ "filename" := "missing.txt" ]} : gmap string string) !! "filename")
  = Ok None /\
  file_download_ui lookup_factory send_object_warning_only
    [("download", "1")] sample_pid sample_record None
    {[ "filename" := "missing.txt" ]} []
  = (Raise (HTTPException 404),
     [EvRecordFileFactory sample_pid sample_record (Some "missing.txt")]).
Proof.
  assert (Hf : default lookup_factory None sample_pid sample_record
                 (({[ "filename" := "missing.txt" ]} : gmap string string)
                    !! "filename") = Ok None)
    by (vm_compute; reflexivity).
  split; [exact Hf|].
  exact (file_download_ui_not_found lookup_factory send_object_warning_only
           [("download", "1")] sample_pid sample_record None
           {[ "filename" := "missing.txt" ]} [] Hf).
Defined.

Example download_sanitizing_collaborator :
  (file_download_ui lookup_factory send_object_sanitizing [] sample_pid
     sample_record None report_kwargs []).1
  = Ok {| status_code := 200; content_disposition := "attachment";
          body := "%PDF" |}.
Proof. vm_compute. reflexivity. Qed.

(** C9, as stated, fails: for [report.pdf] requested without a [download]
    argument, a streaming collaborator that sends what it does not trust
    for display as an attachment answers with an attachment, not inline. *)
Lemma file_download_ui_attachment_without_download :
  ~ disposition_follows_download []
      (file_download_ui lookup_factory send_object_sanitizing [] sample_pid
         sample_record None report_kwargs []).1.
Proof.
  intros H.
  specialize (H {| status_code := 200; content_disposition := "attachment";
                   body := "%PDF" |}
                download_sanitizing_collaborator).
  vm_compute in H. discriminate.
Qed.

(** C9, amended: the view sets no disposition itself.  For a resolved file
    it asks the streaming collaborator for an attachment exactly when the
    query string has an argument named [download], whatever its value, and
    for inline delivery otherwise; nothing else in the call depends on the
    query string, and the response of the collaborator is the response of
    the view.  The response is therefore an attachment with [download] and
    inline without it when the collaborator answers as it is asked. *)
Theorem file_download_ui_disposition
    (previewer_record_file_factory : RecordFileFactory)
    (send_object : string -> ObjectVersion -> option Value -> LoggerData ->
                   bool -> Res Response)
    (request_args : list (string * string)) (pid : PersistentIdentifier)
    (record : RDMRecord) (_record_file_factory : option RecordFileFactory)
    (kwargs : gmap string string) (fileobj : FileObject) (tr : Trace) :
  default previewer_record_file_factory _record_file_factory pid record
    (kwargs !! "filename") = Ok (Some fileobj) ->
  let o := obj fileobj in
  let logger_data :=
    {| ld_bucket_id := ov_bucket_id o; ld_pid_type := pid_type pid;
       ld_pid_value := pid_value pid |} in
  let run :=
    file_download_ui previewer_record_file_factory send_object request_args
      pid record _record_file_factory kwargs tr in
  exists as_attachment,
    (as_attachment = true <-> exists v, ("download", v) ∈ request_args) /\
    run
    = (send_object (ov_bucket_id o) o (FileObject_get_checksum fileobj)
         logger_data as_attachment,
       (tr ++ [EvRecordFileFactory pid record (kwargs !! "filename");
               EvSendObject (ov_bucket_id o) o
                 (FileObject_get_checksum fileobj) logger_data
                 as_attachment])%list) /\
    ((forall asked resp,
        send_object (ov_bucket_id o) o (FileObject_get_checksum fileobj)
          logger_data asked = Ok resp ->
        content_disposition resp
        = if asked then "attachment" else "inline") ->
     disposition_follows_download request_args run.1).
Proof.
  intros Hf. cbv zeta.
  exists (bool_decide ("download" ∈ request_args.*1)). split; [|split].
  - rewrite bool_decide_eq_true, list_elem_of_fmap. split.
    + intros ([k v] & Hk & Hin). simpl in Hk. subst k. eauto.
    + intros [v Hin]. exists ("download", v). done.
  - apply (file_download_ui_resolved _ _ _ _ _ _ _ _ _ Hf).
  - intros Hhonours resp.
    rewrite (file_download_ui_resolved _ _ _ _ _ _ _ _ _ Hf). simpl.
    apply Hhonours.
Qed.

Lemma file_download_ui_disposition_witness :
  lookup_factory sample_pid sample_record (report_kwargs !! "filename")
  = Ok (Some report_fileobj) /\
  (file_download_ui lookup_factory send_object_warning_only
     [("download", "")] sample_pid sample_record None report_kwargs []).2
  = [EvRecordFileFactory sample_pid sample_record (Some "report.pdf");
     EvSendObject "bucket-1" report_pdf (Some (VStr "md5:aaaa"))
       report_logger_data true] /\
  disposition_follows_download [("download", "")]
    (file_download_ui lookup_factory send_object_warning_only
       [("download", "")] sample_pid sample_record None report_kwargs []).1.
Proof.
  assert (Hf : default lookup_factory None sample_pid sample_record
                 (report_kwargs !! "filename") = Ok (Some report_fileobj))
    by (vm_compute; reflexivity).
  split; [exact Hf|].
  destruct (file_download_ui_disposition lookup_factory
              send_object_warning_only [("download", "")] sample_pid
              sample_record None report_kwargs report_fileobj [] Hf)
    as (as_attachment & _ & _ & Hfollows).
  split; [vm_compute; reflexivity|].
  apply Hfollows. intros asked resp [= <-]. reflexivity.
Defined.

(** * Further properties *)

(** ** The selector on arbitrary input *)

Lemma has_key_dec (f : Dict) : {is_Some (f !! "key")} + {f !! "key" = None}.
Proof. destruct (f !! "key") as [v|]; [left; eauto|right; reflexivity]. Qed.

Lemma has_str_key_dec (f : Dict) : {is_Some (key_of f)} + {key_of f = None}.
Proof. destruct (key_of f) as [s|]; [left; eauto|right; reflexivity]. Qed.

Lemma key_of_skey (f : Dict) : is_Some (key_of f) -> key_of f = Some (skey f).
Proof. intros [s Hs]. by rewrite (skey_Some _ _ Hs). Qed.

Lemma key_of_raw_eq (f g : Dict) :
  is_Some (key_of f) -> is_Some (key_of g) ->
  (g !! "key" = f !! "key" <-> skey g = skey f).
Proof.
  intros [s Hs] [t Ht]. rewrite (skey_Some _ _ Hs), (skey_Some _ _ Ht).
  apply key_of_Some in Hs, Ht. rewrite Hs, Ht. split; congruence.
Qed.

Section SelectorCases.

Variable is_previewable : string -> bool.
Implicit Types (f g : Dict) (l : list Dict) (d : option string)
  (sel : option Dict) (files : option (list Dict)).

(** The three ways in which the selector ends. *)
Lemma select_preview_file_cases files d :
  (Forall (fun f => is_Some (key_of f)) (or_empty files) /\
   select_preview_file is_previewable files d
   = Ok (scan is_previewable d (scan_order (or_empty files)) None)) \/
  (Exists (fun f : Dict => f !! "key" = None) (or_empty files) /\
   select_preview_file is_previewable files d = Ok None) \/
  (Forall (fun f : Dict => is_Some (f !! "key")) (or_empty files) /\
   Exists (fun f => key_of f = None) (or_empty files) /\
   select_preview_file is_previewable files d = Raise TypeError).
Proof.
  assert (Hsel : select_preview_file is_previewable files d
                 = select_preview_file is_previewable
                     (Some (or_empty files)) d)
    by (destruct files; reflexivity).
  rewrite Hsel. generalize (or_empty files). intros l.
  destruct (Forall_Exists_dec _ _ has_key_dec l) as [Hpresent | Hmissing].
  - destruct (Forall_Exists_dec _ _ has_str_key_dec l) as [Hstr | Hbad].
    + left. split; [done|]. by apply select_preview_file_scan.
    + right. right. repeat split; [done..|].
      by apply select_preview_file_TypeError.
  - right. left. split; [done|]. by apply select_preview_file_KeyError.
Qed.

Lemma scan_result sel d l f :
  scan is_previewable d l sel = Some f ->
  sel = Some f \/ (f ∈ l /\ previewable is_previewable f = true).
Proof.
  revert sel. induction l as [|x l IH]; intros sel.
  - intros H. left. exact H.
  - rewrite scan_cons. intros [Hstep | [Hf Hp]]%IH.
    + unfold scan_step in Hstep.
      destruct (previewable is_previewable x) eqn:Hx; [|by left].
      destruct sel as [g|].
      * destruct (decide (Some (skey x) = d)); [|by left].
        injection Hstep as <-. right. split; [left|done].
      * injection Hstep as <-. right. split; [left|done].
    + right. split; [by right|done].
Qed.

Lemma scan_default_irrelevant (dk : string) l sel :
  Forall (fun f => skey f = dk -> previewable is_previewable f = false) l ->
  scan is_previewable (Some dk) l sel = scan is_previewable None l sel.
Proof.
  intros Hall. revert sel.
  induction Hall as [|x l Hx _ IH]; intros sel; [reflexivity|].
  rewrite !scan_cons, IH. f_equal. unfold scan_step.
  destruct (previewable is_previewable x) eqn:Hp; [|reflexivity].
  destruct sel; [|reflexivity].
  rewrite (decide_False (P := Some (skey x) = None)) by discriminate.
  rewrite decide_False; [reflexivity|].
  intros [= Hk]. specialize (Hx Hk). congruence.
Qed.

End SelectorCases.

Lemma select_preview_file_first_match_scan
    (is_previewable : string -> bool) (files : option (list Dict)) :
  Forall (fun f => is_Some (key_of f)) (or_empty files) ->
  select_preview_file is_previewable files None
  = Ok (scan is_previewable None (scan_order (or_empty files)) None).
Proof.
  intros Hall. rewrite <- (select_preview_file_scan _ _ _ Hall).
  destruct files; reflexivity.
Qed.

(** X1: whatever the input and the default, a descriptor that the selector
    returns is one of the input descriptors, has a string ['key'], and is
    previewable. *)
Theorem select_preview_file_result_sound
    (is_previewable : string -> bool) (files : option (list Dict))
    (default_preview : option string) (f : Dict) :
  select_preview_file is_previewable files default_preview = Ok (Some f) ->
  f ∈ or_empty files /\
  (exists k, f !! "key" = Some (VStr k) /\
             is_previewable (file_type k) = true).
Proof.
  intros Hsel.
  destruct (select_preview_file_cases is_previewable files default_preview)
    as [[Hall Heq] | [[_ Heq] | (_ & _ & Heq)]];
    rewrite Heq in Hsel; try discriminate.
  injection Hsel as Hscan.
  apply scan_result in Hscan as [? | [Hf Hp]]; [discriminate|].
  rewrite scan_order_perm in Hf. split; [exact Hf|].
  rewrite Forall_forall in Hall. destruct (Hall f Hf) as [k Hk].
  exists k. split; [by apply key_of_Some|].
  unfold previewable in Hp. by rewrite (skey_Some _ _ Hk) in Hp.
Qed.

Lemma select_preview_file_result_sound_witness :
  select_preview_file images_and_text
    (Some [file_desc "notes" 3; file_desc "b.PNG" 1]) (Some "zzz")
  = Ok (Some (file_desc "b.PNG" 1)) /\
  file_desc "b.PNG" 1 ∈ [file_desc "notes" 3; file_desc "b.PNG" 1] /\
  (exists k, file_desc "b.PNG" 1 !! "key" = Some (VStr k) /\
             images_and_text (file_type k) = true).
Proof.
  assert (H : select_preview_file images_and_text
                (Some [file_desc "notes" 3; file_desc "b.PNG" 1])
                (Some "zzz") = Ok (Some (file_desc "b.PNG" 1)))
    by (vm_compute; reflexivity).
  split; [exact H|].
  exact (select_preview_file_result_sound images_and_text _ _ _ H).
Defined.

(** X2: the only exception that leaves the selector is [TypeError], and it
    does so exactly when every descriptor has a ['key'] and the ['key'] of
    some descriptor is not a string; a [KeyError] never leaves it. *)
Theorem select_preview_file_raises_only_TypeError
    (is_previewable : string -> bool) (files : option (list Dict))
    (default_preview : option string) (e : Exn) :
  select_preview_file is_previewable files default_preview = Raise e <->
  e = TypeError /\
  Forall (fun f : Dict => is_Some (f !! "key")) (or_empty files) /\
  Exists (fun f : Dict => exists z, f !! "key" = Some (VInt z))
    (or_empty files).
Proof.
  assert (Hint : forall f : Dict,
             is_Some (f !! "key") ->
             (key_of f = None <-> exists z, f !! "key" = Some (VInt z))).
  { intros f [v Hv]. unfold key_of. rewrite Hv.
    destruct v; split; try discriminate; eauto. by intros [? [=]]. }
  destruct (select_preview_file_cases is_previewable files default_preview)
    as [[Hall Heq] | [[Hex Heq] | (Hall & Hex & Heq)]]; rewrite Heq.
  - split; [discriminate|]. intros (_ & _ & Hbad). exfalso.
    apply Exists_exists in Hbad as (f & Hf & z & Hz).
    rewrite Forall_forall in Hall. destruct (Hall f Hf) as [k Hk].
    apply key_of_Some in Hk. congruence.
  - split; [discriminate|]. intros (_ & Hpresent & _). exfalso.
    apply Exists_exists in Hex as (f & Hf & Hnone).
    rewrite Forall_forall in Hpresent. destruct (Hpresent f Hf) as [v Hv].
    congruence.
  - split.
    + intros [= <-]. repeat split; [done|].
      apply Exists_exists in Hex as (f & Hf & Hnone).
      apply Exists_exists. exists f. split; [done|].
      apply Hint; [|done]. rewrite Forall_forall in Hall. by apply Hall.
    + by intros (-> & _ & _).
Qed.

(** X3: a default that is not the key of a previewable descriptor of the
    input (a key that does not occur, or the key of a file that cannot be
    previewed) changes nothing: the selector answers as without a default. *)
Theorem select_preview_file_default_ignored
    (is_previewable : string -> bool) (files : option (list Dict))
    (default_preview : string) :
  (forall f, f ∈ or_empty files ->
             f !! "key" = Some (VStr default_preview) ->
             is_previewable (file_type default_preview) = false) ->
  select_preview_file is_previewable files (Some default_preview)
  = select_preview_file is_previewable files None.
Proof.
  intros Hno.
  destruct (select_preview_file_cases is_previewable files
              (Some default_preview))
    as [[Hall Heq] | [[Hex Heq] | (Hall & Hex & Heq)]]; rewrite Heq.
  - rewrite (select_preview_file_first_match_scan is_previewable files Hall).
    f_equal. apply scan_default_irrelevant.
    apply Forall_forall. intros f Hf Hk. rewrite scan_order_perm in Hf.
    rewrite Forall_forall in Hall. specialize (Hall f Hf).
    unfold previewable. rewrite Hk. apply (Hno f Hf).
    apply key_of_Some. rewrite <- Hk. by apply key_of_skey.
  - destruct (select_preview_file_cases is_previewable files None)
      as [[Hall' _] | [[_ Heq'] | (Hall' & _ & _)]]; [| by rewrite Heq' |].
    + exfalso. apply Exists_exists in Hex as (f & Hf & Hnone).
      rewrite Forall_forall in Hall'. destruct (Hall' f Hf) as [k Hk].
      apply key_of_Some in Hk. congruence.
    + exfalso. apply Exists_exists in Hex as (f & Hf & Hnone).
      rewrite Forall_forall in Hall'. destruct (Hall' f Hf) as [k Hk].
      congruence.
  - destruct (select_preview_file_cases is_previewable files None)
      as [[Hall' _] | [[Hex' _] | (_ & _ & Heq')]]; [| | by rewrite Heq'].
    + exfalso. apply Exists_exists in Hex as (f & Hf & Hnone).
      rewrite Forall_forall in Hall'. destruct (Hall' f Hf) as [k Hk].
      congruence.
    + exfalso. apply Exists_exists in Hex' as (f & Hf & Hnone).
      rewrite Forall_forall in Hall. destruct (Hall f Hf) as [k Hk].
      congruence.
Qed.

Lemma select_preview_file_default_ignored_witness :
  (forall f, f ∈ [file_desc "c.pdf" 1; file_desc "notes" 2] ->
             f !! "key" = Some (VStr "notes") ->
             images_and_text (file_type "notes") = false) /\
  select_preview_file images_and_text
    (Some [file_desc "c.pdf" 1; file_desc "notes" 2]) (Some "notes")
  = select_preview_file images_and_text
      (Some [file_desc "c.pdf" 1; file_desc "notes" 2]) None.
Proof.
  assert (H : forall f, f ∈ [file_desc "c.pdf" 1; file_desc "notes" 2] ->
                        f !! "key" = Some (VStr "notes") ->
                        images_and_text (file_type "notes") = false)
    by (intros; reflexivity).
  split; [exact H|].
  exact (select_preview_file_default_ignored images_and_text
           (Some [file_desc "c.pdf" 1; file_desc "notes" 2]) "notes" H).
Defined.

(** ** Descriptors with equal keys *)

Lemma filter_iff_elem {A} (P Q : A -> Prop)
    `{!forall x, Decision (P x), !forall x, Decision (Q x)} (l : list A) :
  (forall x, x ∈ l -> P x <-> Q x) -> filter P l = filter Q l.
Proof.
  induction l as [|x l IH]; intros Hiff; [reflexivity|].
  rewrite !filter_cons, IH by (intros y Hy; apply Hiff; by right).
  pose proof (Hiff x ltac:(left)) as Hx.
  destruct (decide (P x)), (decide (Q x)); try reflexivity; tauto.
Qed.

Lemma filter_none {A} (P : A -> Prop) `{!forall x, Decision (P x)}
    (l : list A) :
  Forall (fun x => ~ P x) l -> filter P l = [].
Proof.
  induction 1 as [|x l Hx _ IH]; [reflexivity|].
  by rewrite filter_cons, decide_False, IH.
Qed.

(** The sort is stable: the elements of one key keep their input order. *)
Lemma insert_by_key_filter {A} (k : string) (x : string * A) l :
  filter (fun y => y.1 = k) (insert_by_key x l)
  = filter (fun y => y.1 = k) (x :: l).
Proof.
  induction l as [|y l IH]; simpl; [reflexivity|].
  destruct (String.leb x.1 y.1) eqn:Hxy; [reflexivity|].
  rewrite filter_cons, IH, !filter_cons.
  destruct (decide (y.1 = k)) as [Hy|Hy];
    destruct (decide (x.1 = k)) as [Hx|Hx]; try reflexivity.
  exfalso. rewrite <- Hx in Hy. rewrite Hy, string_leb_refl in Hxy.
  discriminate.
Qed.

Lemma sort_by_key_filter {A} (k : string) (l : list (string * A)) :
  filter (fun y => y.1 = k) (sort_by_key l) = filter (fun y => y.1 = k) l.
Proof.
  induction l as [|x l IH]; simpl; [reflexivity|].
  rewrite insert_by_key_filter, !filter_cons, IH. reflexivity.
Qed.

Lemma filter_decorated (k : string) (l : list (string * Dict)) :
  Forall (fun x => x.1 = skey x.2) l ->
  filter (fun g => skey g = k) (l.*2) = (filter (fun y => y.1 = k) l).*2.
Proof.
  induction 1 as [|x l Hx _ IH]; [reflexivity|].
  rewrite fmap_cons, !filter_cons, IH, <- Hx.
  destruct (decide (x.1 = k)); reflexivity.
Qed.

Lemma scan_order_filter (k : string) (files : list Dict) :
  filter (fun g => skey g = k) (scan_order files)
  = filter (fun g => skey g = k) files.
Proof.
  unfold scan_order.
  rewrite filter_decorated, sort_by_key_filter.
  - rewrite <- filter_decorated.
    + unfold decorate. rewrite <- list_fmap_compose.
      by rewrite list_fmap_id.
    + unfold decorate. apply Forall_fmap, Forall_true. done.
  - apply Forall_forall. intros x Hx.
    apply elem_of_sorted_decorate in Hx. tauto.
Qed.

Section EqualKeys.

Variable is_previewable : string -> bool.
Implicit Types (f g : Dict) (l : list Dict) (sel : option Dict).

Lemma scan_no_default_split l f :
  scan is_previewable None l None = Some f ->
  exists l1 l2,
    l = (l1 ++ f :: l2)%list /\
    Forall (fun g => previewable is_previewable g = false) l1.
Proof.
  induction l as [|x l IH]; [discriminate|].
  rewrite scan_cons. unfold scan_step.
  destruct (previewable is_previewable x) eqn:Hx.
  - rewrite scan_no_default_Some. intros [= <-]. by exists [], l.
  - intros (l1 & l2 & -> & Hl1)%IH. exists (x :: l1), l2.
    split; [reflexivity|]. by constructor.
Qed.

Lemma scan_snoc dp l x sel :
  scan is_previewable dp (l ++ [x]) sel
  = scan_step is_previewable dp (scan is_previewable dp l sel) x.
Proof. unfold scan. by rewrite fold_left_app. Qed.

(** With a previewable default in the list, the last descriptor of that key
    in scan order is the one that stays selected. *)
Lemma scan_default_last (dk : string) l sel :
  is_previewable (file_type dk) = true ->
  Exists (fun g => skey g = dk) l ->
  scan is_previewable (Some dk) l sel
  = last (filter (fun g => skey g = dk) l).
Proof.
  intros Hp. revert sel.
  induction l as [|x l IH] using rev_ind; intros sel Hex.
  { by apply Exists_nil in Hex. }
  rewrite scan_snoc, filter_app, filter_cons, filter_nil.
  unfold scan_step, previewable.
  destruct (decide (skey x = dk)) as [Hk|Hk].
  - rewrite Hk, Hp, decide_True by reflexivity.
    rewrite last_snoc. by destruct (scan _ _ _ _).
  - rewrite app_nil_r.
    apply Exists_app in Hex as [Hex | Hex]; [|by apply Exists_cons in Hex
                                                  as [? | ?%Exists_nil]].
    rewrite (IH sel Hex).
    assert (Hsome : is_Some (last (filter (fun g => skey g = dk) l))).
    { apply Exists_exists in Hex as (g & Hg & Hgk).
      destruct (last _) eqn:Hlast; [eauto|].
      apply last_None in Hlast.
      assert (g ∈ filter (fun g => skey g = dk) l)
        by (by apply list_elem_of_filter).
      rewrite Hlast in *. by apply elem_of_nil in H. }
    destruct Hsome as [g ->].
    destruct (is_previewable (file_type (skey x))); [|reflexivity].
    rewrite decide_False; [reflexivity|]. intros [= ?]. done.
Qed.

End EqualKeys.

(** X4: without a default, when several descriptors carry the key of the
    selected one, the selected one is the first of them in the input: the
    sort keeps the input order of equal keys and the first previewable
    descriptor wins. *)
Theorem select_preview_file_first_of_equal_keys
    (is_previewable : string -> bool) (files : list Dict) (f : Dict) :
  select_preview_file is_previewable (Some files) None = Ok (Some f) ->
  head (filter (fun g : Dict => g !! "key" = f !! "key") files) = Some f.
Proof.
  intros Hsel.
  destruct (select_preview_file_cases is_previewable (Some files) None)
    as [[Hall Heq] | [[_ Heq] | (_ & _ & Heq)]];
    rewrite Heq in Hsel; try discriminate.
  injection Hsel as Hscan. simpl in *.
  assert (Hf : f ∈ files /\ previewable is_previewable f = true).
  { apply scan_result in Hscan as [? | [Hf ?]]; [discriminate|].
    by rewrite scan_order_perm in Hf. }
  destruct Hf as [Hf Hpf]. rewrite Forall_forall in Hall.
  rewrite (filter_iff_elem _ (fun g => skey g = skey f)).
  2:{ intros g Hg. apply key_of_raw_eq; auto. }
  rewrite <- scan_order_filter.
  apply scan_no_default_split in Hscan as (l1 & l2 & -> & Hl1).
  rewrite filter_app, filter_cons, decide_True by reflexivity.
  rewrite (filter_none _ l1); [reflexivity|].
  eapply Forall_impl; [exact Hl1|]. intros g Hg Hk. simpl in *.
  unfold previewable in *. rewrite Hk in Hg. congruence.
Qed.

Lemma select_preview_file_first_of_equal_keys_witness :
  select_preview_file images_and_text
    (Some [file_desc "b.txt" 9; file_desc "a.png" 1; file_desc "a.png" 2])
    None
  = Ok (Some (file_desc "a.png" 1)) /\
  head (filter (fun g : Dict => g !! "key" = file_desc "a.png" 1 !! "key")
          [file_desc "b.txt" 9; file_desc "a.png" 1; file_desc "a.png" 2])
  = Some (file_desc "a.png" 1).
Proof.
  assert (H : select_preview_file images_and_text
                (Some [file_desc "b.txt" 9; file_desc "a.png" 1;
                       file_desc "a.png" 2]) None
              = Ok (Some (file_desc "a.png" 1)))
    by (vm_compute; reflexivity).
  split; [exact H|].
  exact (select_preview_file_first_of_equal_keys images_and_text _ _ H).
Defined.

(** X5: when every descriptor has a string key and the default is the key
    of a previewable descriptor, the selector returns the last descriptor
    of the input that carries the default key: each one overwrites the
    selection made before it. *)
Theorem select_preview_file_last_of_default
    (is_previewable : string -> bool) (files : list Dict)
    (default_preview : string) :
  Forall (fun f => is_Some (key_of f)) files ->
  Exists (fun f : Dict => f !! "key" = Some (VStr default_preview)) files ->
  is_previewable (file_type default_preview) = true ->
  select_preview_file is_previewable (Some files) (Some default_preview)
  = Ok (last (filter (fun g : Dict =>
                        g !! "key" = Some (VStr default_preview)) files)).
Proof.
  intros Hall Hex Hp. rewrite (select_preview_file_scan _ _ _ Hall).
  f_equal. rewrite Forall_forall in Hall.
  assert (Hkey : forall g, g ∈ files ->
            (g !! "key" = Some (VStr default_preview)
             <-> skey g = default_preview)).
  { intros g [k Hk]%Hall. rewrite (skey_Some _ _ Hk).
    apply key_of_Some in Hk. rewrite Hk. split; congruence. }
  rewrite (filter_iff_elem _ (fun g => skey g = default_preview) _ Hkey).
  rewrite <- scan_order_filter. apply scan_default_last; [exact Hp|].
  apply Exists_exists in Hex as (g & Hg & Hgk).
  apply Exists_exists. exists g. split; [by rewrite scan_order_perm|].
  by apply Hkey.
Qed.

Lemma select_preview_file_last_of_default_witness :
  Forall (fun f => is_Some (key_of f))
    [file_desc "a.png" 1; file_desc "a.png" 2; file_desc "0.txt" 3] /\
  Exists (fun f : Dict => f !! "key" = Some (VStr "a.png"))
    [file_desc "a.png" 1; file_desc "a.png" 2; file_desc "0.txt" 3] /\
  images_and_text (file_type "a.png") = true /\
  select_preview_file images_and_text
    (Some [file_desc "a.png" 1; file_desc "a.png" 2; file_desc "0.txt" 3])
    (Some "a.png")
  = Ok (last (filter (fun g : Dict => g !! "key" = Some (VStr "a.png"))
                [file_desc "a.png" 1; file_desc "a.png" 2;
                 file_desc "0.txt" 3])).
Proof.
  assert (H1 : Forall (fun f => is_Some (key_of f))
                 [file_desc "a.png" 1; file_desc "a.png" 2;
                  file_desc "0.txt" 3])
    by (repeat constructor; vm_compute; eauto).
  assert (H2 : Exists (fun f : Dict => f !! "key" = Some (VStr "a.png"))
                 [file_desc "a.png" 1; file_desc "a.png" 2;
                  file_desc "0.txt" 3])
    by (apply Exists_cons_hd; reflexivity).
  assert (H3 : images_and_text (file_type "a.png") = true) by reflexivity.
  split; [exact H1|]. split; [exact H2|]. split; [exact H3|].
  exact (select_preview_file_last_of_default images_and_text _ _ H1 H2 H3).
Defined.

Example select_last_of_default :
  select_preview_file images_and_text
    (Some [file_desc "a.png" 1; file_desc "a.png" 2; file_desc "0.txt" 3])
    (Some "a.png")
  = Ok (Some (file_desc "a.png" 2)).
Proof. vm_compute. reflexivity. Qed.

(** ** The extension that decides previewability *)

Lemma lower_ascii_eqb_dot a :
  Ascii.eqb (lower_ascii a) "." = Ascii.eqb a ".".
Proof. destruct a as [[] [] [] [] [] [] [] []]; reflexivity. Qed.

Lemma lower_ascii_eqb_slash a :
  Ascii.eqb (lower_ascii a) "/" = Ascii.eqb a "/".
Proof. destruct a as [[] [] [] [] [] [] [] []]; reflexivity. Qed.

Lemma lower_ascii_idemp a : lower_ascii (lower_ascii a) = lower_ascii a.
Proof. destruct a as [[] [] [] [] [] [] [] []]; reflexivity. Qed.

Lemma lower_idemp s : lower (lower s) = lower s.
Proof.
  induction s as [|a s IH]; simpl; [reflexivity|].
  by rewrite lower_ascii_idemp, IH.
Qed.

Lemma length_lower s : String.length (lower s) = String.length s.
Proof. induction s as [|a s IH]; simpl; [reflexivity|]. by rewrite IH. Qed.

Lemma rfind_from_lower c s i :
  (forall a, Ascii.eqb (lower_ascii a) c = Ascii.eqb a c) ->
  rfind_from c (lower s) i = rfind_from c s i.
Proof.
  intros Hc. revert i. induction s as [|a s IH]; intros i; simpl;
    [reflexivity|].
  by rewrite IH, Hc.
Qed.

Lemma substring_lower n m s :
  String.substring n m (lower s) = lower (String.substring n m s).
Proof.
  revert n m. induction s as [|a s IH]; intros [|n] [|m]; simpl;
    try reflexivity; by rewrite ?IH.
Qed.

Lemma slice_lower p i j : slice (lower p) i j = lower (slice p i j).
Proof. unfold slice. apply substring_lower. Qed.

Lemma slice_from_lower p i : slice_from (lower p) i = lower (slice_from p i).
Proof. unfold slice_from. by rewrite length_lower, slice_lower. Qed.

Lemma lower_eqb_dot s : String.eqb (lower s) "." = String.eqb s ".".
Proof.
  destruct s as [|a [|b s]]; simpl; try reflexivity.
  - by rewrite lower_ascii_eqb_dot.
  - rewrite lower_ascii_eqb_dot. by destruct (Ascii.eqb a ".").
Qed.

Lemma splitext_scan_lower p i n d :
  splitext_scan (lower p) i n d
  = (lower (splitext_scan p i n d).1, lower (splitext_scan p i n d).2).
Proof.
  revert i. induction n as [|n IH]; intros i; simpl; [reflexivity|].
  rewrite slice_lower, lower_eqb_dot.
  destruct (String.eqb (slice p i (i + 1)) "."); simpl.
  - apply IH.
  - by rewrite slice_lower, slice_from_lower.
Qed.

Lemma splitext_lower p :
  splitext (lower p) = (lower (splitext p).1, lower (splitext p).2).
Proof.
  unfold splitext.
  unfold rfind.
  rewrite (rfind_from_lower "/" p 0 lower_ascii_eqb_slash),
    (rfind_from_lower "." p 0 lower_ascii_eqb_dot).
  cbv zeta. destruct (_ <? _); [|reflexivity].
  apply splitext_scan_lower.
Qed.

Lemma file_type_lower key : file_type (lower key) = file_type key.
Proof.
  unfold file_type. rewrite splitext_lower. simpl.
  by rewrite slice_from_lower, lower_idemp.
Qed.

(** X6: previewability does not depend on the case of the key: two keys
    that differ only in the case of ASCII letters have the same
    [file_type], so the external predicate is asked the same question. *)
Theorem file_type_case_insensitive (key1 key2 : string) :
  lower key1 = lower key2 -> file_type key1 = file_type key2.
Proof.
  intros H. rewrite <- (file_type_lower key1), <- (file_type_lower key2).
  by rewrite H.
Qed.

Lemma file_type_case_insensitive_witness :
  lower "Scan.Tar.GZ" = lower "scan.tar.gz" /\
  file_type "Scan.Tar.GZ" = file_type "scan.tar.gz".
Proof.
  assert (H : lower "Scan.Tar.GZ" = lower "scan.tar.gz") by reflexivity.
  split; [exact H|]. exact (file_type_case_insensitive _ _ H).
Defined.

(** X8: a key has the empty extension whenever its last dot is not behind
    the first character of its last path component: a key without dot, a
    key whose only dots are in directory names, and a hidden file such as
    [.png] or [docs/.png]. *)
Theorem file_type_no_extension (key : string) :
  rfind key "." <= rfind key "/" + 1 -> file_type key = "".
Proof.
  intros Hle. unfold file_type, splitext.
  destruct (Z.ltb_spec (rfind key "/") (rfind key ".")); [|reflexivity].
  replace (Z.to_nat (rfind key "." - (rfind key "/" + 1))) with O by lia.
  reflexivity.
Qed.

Lemma file_type_no_extension_witness :
  rfind "docs/.png" "." <= rfind "docs/.png" "/" + 1 /\
  file_type "docs/.png" = "".
Proof.
  assert (H : rfind "docs/.png" "." <= rfind "docs/.png" "/" + 1)
    by (vm_compute; discriminate).
  split; [exact H|]. exact (file_type_no_extension _ H).
Defined.

Lemma rfind_from_char c s i :
  0 <= rfind_from c s i ->
  String.substring (Z.to_nat (rfind_from c s i - i)) 1 s = String c "".
Proof.
  revert i. induction s as [|a s IH]; intros i; simpl; [lia|].
  destruct (Z.leb_spec 0 (rfind_from c s (i + 1))) as [Hr|Hr].
  - intros _. destruct (rfind_from_bounds c s (i + 1)) as [?|Hb]; [lia|].
    replace (Z.to_nat (rfind_from c s (i + 1) - i))
      with (S (Z.to_nat (rfind_from c s (i + 1) - (i + 1)))) by lia.
    simpl. by apply IH.
  - destruct (Ascii.eqb_spec a c) as [->|_]; [|lia].
    intros _. rewrite Z.sub_diag. simpl. by destruct s.
Qed.

Lemma rfind_char p c :
  0 <= rfind p c -> slice p (rfind p c) (rfind p c + 1) = String c "".
Proof.
  intros H. unfold slice.
  replace (Z.to_nat (rfind p c + 1 - rfind p c)) with 1%nat by lia.
  rewrite <- (rfind_from_char c p 0 H). unfold rfind. by rewrite Z.sub_0_r.
Qed.

(** X7: when the last dot of the key lies in its last path component and
    that component does not begin with a dot, the extension asked about is
    the lowercased rest of the key after that last dot. *)
Theorem file_type_after_last_dot (key : string) :
  rfind key "/" < rfind key "." ->
  slice key (rfind key "/" + 1) (rfind key "/" + 1 + 1) <> "." ->
  file_type key = lower (slice_from key (rfind key "." + 1)).
Proof.
  intros Hlt Hfirst. unfold file_type, splitext.
  destruct (Z.ltb_spec (rfind key "/") (rfind key ".")); [|lia].
  assert (Hsep : -1 <= rfind key "/").
  { unfold rfind. destruct (rfind_from_bounds "/" key 0); lia. }
  assert (Hdot : 0 <= rfind key "." < Z.of_nat (String.length key)).
  { unfold rfind in *. destruct (rfind_from_bounds "." key 0); lia. }
  destruct (Z.to_nat (rfind key "." - (rfind key "/" + 1))) as [|n] eqn:Hn.
  - exfalso. apply Hfirst.
    replace (rfind key "/" + 1) with (rfind key ".") by lia.
    apply rfind_char. lia.
  - simpl. destruct (String.eqb_spec
                       (slice key (rfind key "/" + 1) (rfind key "/" + 1 + 1))
                       "."); [done|].
    simpl. f_equal. by apply slice_from_slice_from.
Qed.

Lemma file_type_after_last_dot_witness :
  rfind "2020/Fig.1.JPG" "/" < rfind "2020/Fig.1.JPG" "." /\
  slice "2020/Fig.1.JPG" (rfind "2020/Fig.1.JPG" "/" + 1)
    (rfind "2020/Fig.1.JPG" "/" + 1 + 1) <> "." /\
  file_type "2020/Fig.1.JPG" = "jpg".
Proof.
  assert (H1 : rfind "2020/Fig.1.JPG" "/" < rfind "2020/Fig.1.JPG" ".")
    by (vm_compute; reflexivity).
  assert (H2 : slice "2020/Fig.1.JPG" (rfind "2020/Fig.1.JPG" "/" + 1)
                 (rfind "2020/Fig.1.JPG" "/" + 1 + 1) <> ".")
    by (vm_compute; discriminate).
  split; [exact H1|]. split; [exact H2|].
  exact (file_type_after_last_dot "2020/Fig.1.JPG" H1 H2).
Defined.

(** ** The normalizers and the selector together *)

Lemma mapping_getitem_elem {A} (m : list (string * A)) k :
  k ∈ m.*1 -> exists v, mapping_getitem m k = Ok v /\ (k, v) ∈ m.
Proof.
  induction m as [|[k' v'] m IH]; simpl; intros Hk.
  - by apply elem_of_nil in Hk.
  - destruct (String.eqb_spec k' k) as [->|Hne].
    + exists v'. split; [reflexivity|left].
    + apply elem_of_cons in Hk as [?|Hk]; [congruence|].
      destruct (IH Hk) as (v & Hv & Hin). exists v. split; [done|by right].
Qed.

Lemma key_of_dumps (fo : FileObject) :
  key_of (FileObject_dumps fo) = Some (ov_key (obj fo)).
Proof.
  unfold key_of, FileObject_dumps.
  by rewrite !lookup_insert_ne, lookup_insert_eq by done.
Qed.

(** The outputs of [make_files_preview_compatible], entry by entry. *)
Lemma make_files_preview_compatible_outputs (fs : RecordFiles) :
  exists outs,
    make_files_preview_compatible fs = Ok outs /\
    length outs = length fs /\
    forall out, out ∈ outs ->
      exists e, e ∈ fs /\
        out = FileObject_dumps {| obj := object_version e.2; data := ∅ |}.
Proof.
  set (g := fun file =>
              match mapping_getitem fs file with
              | Ok rf => FileObject_dumps
                           {| obj := object_version rf; data := ∅ |}
              | Raise _ => ∅
              end).
  exists (map g (fs.*1)). split; [|split].
  - unfold make_files_preview_compatible. apply map_res_ok.
    apply Forall_forall. intros k Hk.
    destruct (mapping_getitem_elem fs k Hk) as (v & Hv & _).
    unfold g. by rewrite Hv.
  - by rewrite !length_map.
  - intros out (k & -> & Hk)%list_elem_of_fmap.
    destruct (mapping_getitem_elem fs k Hk) as (v & Hv & Hin).
    exists (k, v). split; [done|]. unfold g. by rewrite Hv.
Qed.

(** X9: the selector applied to the output of
    [make_files_preview_compatible] never raises: every output has the key
    of its object version as ['key'].  What it selects is the dump of an
    entry of the collection whose object version has a previewable key. *)
Theorem select_preview_file_of_compatible_files
    (is_previewable : string -> bool) (fs : RecordFiles)
    (default_preview : option string) :
  exists outs r,
    make_files_preview_compatible fs = Ok outs /\
    select_preview_file is_previewable (Some outs) default_preview = Ok r /\
    forall f, r = Some f ->
      exists e, e ∈ fs /\
        f = FileObject_dumps {| obj := object_version e.2; data := ∅ |} /\
        is_previewable (file_type (ov_key (object_version e.2))) = true.
Proof.
  destruct (make_files_preview_compatible_outputs fs)
    as (outs & Hout & _ & Hshape).
  assert (Hall : Forall (fun f => is_Some (key_of f)) outs).
  { apply Forall_forall. intros out (e & _ & ->)%Hshape.
    rewrite key_of_dumps. eauto. }
  exists outs. eexists. split; [exact Hout|].
  split; [by apply select_preview_file_scan|].
  intros f Hscan.
  apply scan_result in Hscan as [? | [Hf Hp]]; [discriminate|].
  rewrite scan_order_perm in Hf.
  destruct (Hshape f Hf) as (e & He & ->). exists e.
  split; [done|]. split; [done|].
  unfold previewable in Hp.
  by rewrite (skey_Some _ _ (key_of_dumps _)) in Hp.
Qed.

Example select_of_compatible_sample :
  exists outs,
    make_files_preview_compatible (files sample_record) = Ok outs /\
    select_preview_file images_and_text (Some outs) None
    = Ok (Some (FileObject_dumps {| obj := notes_txt; data := ∅ |})).
Proof. eexists. split; vm_compute; reflexivity. Qed.

Lemma FileObject_dumps_union (o : ObjectVersion) (m : Dict) :
  FileObject_dumps {| obj := o; data := m |}
  = FileObject_dumps {| obj := o; data := ∅ |} ∪ m.
Proof.
  unfold FileObject_dumps. simpl.
  by rewrite <- !insert_union_l, (left_id_L ∅ (∪)).
Qed.

(** X10: the two normalizers agree up to the metadata.  Dumping the file
    objects of [to_previewer_files] gives, entry by entry, the output of
    [make_files_preview_compatible] completed by the entries of the
    metadata under other names: [bucket], [checksum], [file_id], [key],
    [size] and [version_id] always come from the object version, also when
    the metadata records them differently. *)
Theorem dumps_of_previewer_files (fs : RecordFiles) :
  NoDup (fs.*1) ->
  exists outs,
    make_files_preview_compatible fs = Ok outs /\
    FileObject_dumps <$> to_previewer_files {| files := fs |}
    = zip_with (fun out e => out ∪ metadata_or_empty e.2) outs fs.
Proof.
  intros Hnd. eexists. split.
  - unfold make_files_preview_compatible.
    apply make_files_preview_compatible_on.
    apply Forall_forall. intros [k v] Hin. by apply mapping_getitem_NoDup.
  - unfold to_previewer_files. simpl.
    rewrite zip_with_fmap_l, zip_with_diag, <- !list_fmap_compose.
    apply list_fmap_ext. intros _ e _. simpl.
    by rewrite or_empty_dict_metadata, FileObject_dumps_union.
Qed.

Lemma dumps_of_previewer_files_witness :
  NoDup ((files sample_record).*1) /\
  exists outs,
    make_files_preview_compatible (files sample_record) = Ok outs /\
    FileObject_dumps <$> to_previewer_files sample_record
    = zip_with (fun out e => out ∪ metadata_or_empty e.2) outs
        (files sample_record).
Proof.
  assert (Hnd : NoDup ((files sample_record).*1)).
  { apply (bool_decide_unpack _). vm_compute. exact I. }
  split; [exact Hnd|].
  exact (dumps_of_previewer_files (files sample_record) Hnd).
Defined.

Example dumps_keeps_object_checksum :
  (FileObject_dumps <$> to_previewer_files sample_record) !! 0%nat
  = Some (<["bucket" := VStr "bucket-1"]>
          (<["checksum" := VStr "md5:bbbb"]>
          (<["description" := VStr "annual report"]>
          (<["file_id" := VStr "file-1"]>
          (<["key" := VStr "report.pdf"]>
          (<["size" := VInt 4]>
          (<["version_id" := VStr "v1"]> ∅))))))).
Proof. vm_compute. reflexivity. Qed.

Example dumps_overwrites_metadata_file_id :
  FileObject_dumps
    {| obj := report_pdf; data := {[ "file_id" := VStr "stale" ]} |}
    !! "file_id"
  = Some (VStr "file-1").
Proof. reflexivity. Qed.

(** ** [doi_identifier] *)

Example doi_identifier_present :
  doi_identifier [("orcid", VStr "0000-0002-1825-0097");
                  ("doi", VStr "10.5281/zenodo.1")]
  = Ok (Some (VStr "10.5281/zenodo.1")).
Proof. reflexivity. Qed.

Example doi_identifier_other_case :
  doi_identifier [("DOI", VStr "10.5281/zenodo.1")] = Ok None.
Proof. reflexivity. Qed.

Lemma doi_identifier_loop_spec (identifiers : list (string * Value)) keys :
  keys ⊆ identifiers.*1 ->
  (exists v, doi_identifier_loop identifiers keys = Ok (Some v) /\
             "doi" ∈ keys /\ mapping_getitem identifiers "doi" = Ok v) \/
  (doi_identifier_loop identifiers keys = Ok None /\ "doi" ∉ keys).
Proof.
  induction keys as [|k keys IH]; intros Hsub; simpl.
  - right. split; [reflexivity|]. apply not_elem_of_nil.
  - destruct (String.eqb_spec k "doi") as [->|Hne].
    + left. destruct (mapping_getitem_elem identifiers "doi") as (v & Hv & _).
      { apply Hsub. left. }
      exists v. rewrite Hv. split; [reflexivity|]. split; [left|done].
    + destruct IH as [(v & Hv & Hin & Hget) | [Hnone Hnot]].
      { intros x Hx. apply Hsub. by right. }
      * left. exists v. split; [done|]. split; [by right|done].
      * right. split; [done|]. rewrite not_elem_of_cons. by split.
Qed.

(** X11: [doi_identifier] never raises.  It returns the identifier stored
    under ['doi'] when the mapping has such an entry and none when it has
    not; the other entries and their order do not matter. *)
Theorem doi_identifier_get (identifiers : list (string * Value)) :
  exists r,
    doi_identifier identifiers = Ok r /\
    (forall v, r = Some v -> ("doi", v) ∈ identifiers) /\
    (r = None <-> "doi" ∉ identifiers.*1) /\
    (NoDup (identifiers.*1) ->
     forall v, ("doi", v) ∈ identifiers -> r = Some v).
Proof.
  unfold doi_identifier.
  destruct (doi_identifier_loop_spec identifiers (identifiers.*1))
    as [(v & Hv & Hin & Hget) | [Hnone Hnot]]; [done| |].
  - exists (Some v). split; [done|].
    destruct (mapping_getitem_elem identifiers "doi" Hin)
      as (v' & Hv' & Hin').
    assert (v' = v) as -> by congruence.
    split; [by intros ? [= <-]|]. split; [split; [discriminate|done]|].
    intros Hnd w Hw. f_equal.
    pose proof (mapping_getitem_NoDup identifiers "doi" w Hnd Hw).
    congruence.
  - exists None. split; [done|]. split; [discriminate|].
    split; [done|]. intros _ w Hw. exfalso. apply Hnot.
    apply list_elem_of_fmap. by exists ("doi", w).
Qed.

Lemma doi_identifier_get_witness :
  exists r,
    doi_identifier [("orcid", VStr "0000-0002-1825-0097");
                    ("doi", VStr "10.5281/zenodo.1")] = Ok r /\
    r = Some (VStr "10.5281/zenodo.1").
Proof.
  destruct (doi_identifier_get [("orcid", VStr "0000-0002-1825-0097");
                                ("doi", VStr "10.5281/zenodo.1")])
    as (r & Hr & _ & _ & Hunique).
  exists r. split; [exact Hr|]. apply Hunique.
  - apply (bool_decide_unpack _). vm_compute. exact I.
  - right. left.
Defined.

(** ** [pid_url] with and without a scheme *)

(** X12: with a scheme argument, [pid_url] returns a string and never runs
    scheme detection; the string is the URL that the generator returns for
    the identifier and that scheme, or the empty string. *)
Theorem pid_url_explicit_scheme
    (detect_identifier_schemes : option string -> Res (list string))
    (to_url : string -> string -> string -> Res string)
    (identifier : option string) (scheme url_scheme : string) (tr : Trace) :
  exists s evs,
    pid_url detect_identifier_schemes to_url identifier (Some scheme)
      url_scheme tr = (Ok s, (tr ++ evs)%list) /\
    (forall i, EvDetectIdentifierSchemes i ∉ evs) /\
    (s = "" \/
     exists i, identifier = Some i /\ to_url i scheme url_scheme = Ok s).
Proof.
  unfold pid_url, bind, try_except, call, lift, ret, log_warning, call.
  simpl. destruct identifier as [i|].
  - destruct (negb (String.eqb scheme "") && negb (String.eqb i "")).
    + destruct (to_url i scheme url_scheme) as [u|e] eqn:Hu; simpl.
      * exists u, [EvToUrl i scheme url_scheme]. split; [done|].
        split; [|right; eauto].
        intros j [?|[]%elem_of_nil]%elem_of_cons. discriminate.
      * eexists "", [_; _]. rewrite <- app_assoc. split; [done|].
        split; [|by left].
        intros j [?|[?|[]%elem_of_nil]%elem_of_cons]%elem_of_cons;
          discriminate.
    + exists "", []. rewrite app_nil_r. split; [done|].
      split; [|by left]. intros j. apply not_elem_of_nil.
  - exists "", []. rewrite app_nil_r. split; [done|].
    split; [|by left]. intros j. apply not_elem_of_nil.
Qed.

(** X13: without a scheme argument, the first scheme that detection
    returns is the one used, and the others are ignored: after the
    detection call [pid_url] goes on as if that scheme had been passed. *)
Theorem pid_url_first_detected_scheme
    (detect_identifier_schemes : option string -> Res (list string))
    (to_url : string -> string -> string -> Res string)
    (identifier : option string) (url_scheme : string) (tr : Trace)
    (s : string) (others : list string) :
  detect_identifier_schemes identifier = Ok (s :: others) ->
  pid_url detect_identifier_schemes to_url identifier None url_scheme tr
  = pid_url detect_identifier_schemes to_url identifier (Some s) url_scheme
      (tr ++ [EvDetectIdentifierSchemes identifier])%list.
Proof. intros Hd. rewrite pid_url_detect. cbv zeta. by rewrite Hd. Qed.

Lemma pid_url_first_detected_scheme_witness :
  detect_doi (Some "10.5281/zenodo.1") = Ok ["doi"] /\
  pid_url detect_doi to_url_doi (Some "10.5281/zenodo.1") None "https" []
  = pid_url detect_doi to_url_doi (Some "10.5281/zenodo.1") (Some "doi")
      "https" [EvDetectIdentifierSchemes (Some "10.5281/zenodo.1")].
Proof.
  assert (H : detect_doi (Some "10.5281/zenodo.1") = Ok ["doi"])
    by reflexivity.
  split; [exact H|].
  exact (pid_url_first_detected_scheme detect_doi to_url_doi
           (Some "10.5281/zenodo.1") "https" [] "doi" [] H).
Defined.

(** X14: when detection finds no scheme, by returning an empty list or by
    raising [IndexError] itself, [pid_url] returns the empty string after
    the detection call, without generating a URL and without a warning. *)
Theorem pid_url_no_scheme_detected
    (detect_identifier_schemes : option string -> Res (list string))
    (to_url : string -> string -> string -> Res string)
    (identifier : option string) (url_scheme : string) (tr : Trace) :
  detect_identifier_schemes identifier = Ok [] \/
  detect_identifier_schemes identifier = Raise IndexError ->
  pid_url detect_identifier_schemes to_url identifier None url_scheme tr
  = (Ok "", (tr ++ [EvDetectIdentifierSchemes identifier])%list).
Proof.
  intros Hd. rewrite pid_url_detect. cbv zeta.
  by destruct Hd as [-> | ->].
Qed.

Lemma pid_url_no_scheme_detected_witness :
  (detect_doi (Some "hello") = Ok [] \/
   detect_doi (Some "hello") = Raise IndexError) /\
  pid_url detect_doi to_url_failing (Some "hello") None "https" []
  = (Ok "", [EvDetectIdentifierSchemes (Some "hello")]).
Proof.
  assert (H : detect_doi (Some "hello") = Ok [] \/
              detect_doi (Some "hello") = Raise IndexError)
    by (left; reflexivity).
  split; [exact H|].
  exact (pid_url_no_scheme_detected detect_doi to_url_failing
           (Some "hello") "https" [] H).
Defined.

(** ** [file_download_ui]: when it streams *)

(** X15: the view calls the streaming collaborator exactly when the record
    file factory returns a file: not when the factory returns none (404),
    and not when the factory raises, in which case the exception of the
    factory is the outcome of the view. *)
Theorem file_download_ui_streams_iff_resolved
    (previewer_record_file_factory : RecordFileFactory)
    (send_object : string -> ObjectVersion -> option Value -> LoggerData ->
                   bool -> Res Response)
    (request_args : list (string * string)) (pid : PersistentIdentifier)
    (record : RDMRecord) (_record_file_factory : option RecordFileFactory)
    (kwargs : gmap string string) :
  let resolved :=
    default previewer_record_file_factory _record_file_factory pid record
      (kwargs !! "filename") in
  let run :=
    file_download_ui previewer_record_file_factory send_object request_args
      pid record _record_file_factory kwargs [] in
  ((exists bucket o chk ld a, EvSendObject bucket o chk ld a ∈ run.2) <->
   exists fileobj, resolved = Ok (Some fileobj)) /\
  (forall e, resolved = Raise e -> run.1 = Raise e).
Proof.
  cbv zeta.
  destruct (default previewer_record_file_factory _record_file_factory pid
              record (kwargs !! "filename")) as [[fo|]|e] eqn:Hf.
  - rewrite (file_download_ui_resolved _ _ _ _ _ _ _ _ [] Hf). simpl.
    split; [|discriminate]. split; [eauto|]. intros _.
    do 5 eexists. right. left.
  - rewrite (file_download_ui_absent _ _ _ _ _ _ _ [] Hf). simpl.
    split; [|discriminate]. split; [|by intros [? [=]]].
    intros (? & ? & ? & ? & ? & [?|[]%elem_of_nil]%elem_of_cons).
    discriminate.
  - rewrite (file_download_ui_factory_raises _ _ _ _ _ _ _ _ [] Hf). simpl.
    split; [|by intros ? [= <-]]. split; [|by intros [? [=]]].
    intros (? & ? & ? & ? & ? & [?|[]%elem_of_nil]%elem_of_cons).
    discriminate.
Qed.

(** ** Files that cannot be previewed, and repeated keys *)

Lemma insert_by_key_front {A} (x : string * A) l :
  Forall (key_le x) l -> insert_by_key x l = x :: l.
Proof.
  intros Hall. destruct l as [|y l]; [reflexivity|]. simpl.
  apply Forall_cons in Hall as [Hxy _]. unfold key_le in Hxy.
  by rewrite Hxy.
Qed.

Lemma insert_by_key_filter_comm {A} (Q : string * A -> Prop)
    `{!forall x, Decision (Q x)} (x : string * A) l :
  StronglySorted key_le l ->
  filter Q (insert_by_key x l)
  = if decide (Q x) then insert_by_key x (filter Q l) else filter Q l.
Proof.
  induction 1 as [|y l Hs IH Hy]; simpl.
  - rewrite filter_cons, filter_nil. by destruct (decide (Q x)).
  - destruct (String.leb x.1 y.1) eqn:Hxy.
    + rewrite filter_cons. destruct (decide (Q x)); [|reflexivity].
      rewrite insert_by_key_front; [reflexivity|].
      apply Forall_forall. intros z [_ Hz]%list_elem_of_filter.
      apply elem_of_cons in Hz as [->|Hz]; [exact Hxy|].
      rewrite Forall_forall in Hy. specialize (Hy z Hz).
      unfold key_le in *. by eapply string_leb_trans.
    + rewrite filter_cons, IH, (filter_cons _ y).
      destruct (decide (Q y)), (decide (Q x)); simpl;
        rewrite ?Hxy; reflexivity.
Qed.

Lemma sort_by_key_filter_comm {A} (Q : string * A -> Prop)
    `{!forall x, Decision (Q x)} (l : list (string * A)) :
  filter Q (sort_by_key l) = sort_by_key (filter Q l).
Proof.
  induction l as [|x l IH]; [reflexivity|]. simpl.
  rewrite insert_by_key_filter_comm by apply sort_by_key_strongly_sorted.
  rewrite filter_cons, IH. by destruct (decide (Q x)).
Qed.

Lemma filter_fmap_snd {A B} (Q : B -> Prop) `{!forall y, Decision (Q y)}
    (l : list (A * B)) :
  filter Q (l.*2) = (filter (fun x => Q x.2) l).*2.
Proof.
  induction l as [|x l IH]; [reflexivity|].
  rewrite fmap_cons, !filter_cons, IH. by destruct (decide (Q x.2)).
Qed.

Lemma decorate_filter (Q : Dict -> Prop) `{!forall f, Decision (Q f)}
    (files : list Dict) :
  decorate (filter Q files) = filter (fun x => Q x.2) (decorate files).
Proof.
  induction files as [|f files IH]; [reflexivity|]. unfold decorate in *.
  simpl. rewrite !filter_cons. simpl.
  destruct (decide (Q f)); simpl; by rewrite IH.
Qed.

Lemma scan_order_filter_comm (Q : Dict -> Prop)
    `{!forall f, Decision (Q f)} (files : list Dict) :
  scan_order (filter Q files) = filter Q (scan_order files).
Proof.
  unfold scan_order.
  by rewrite filter_fmap_snd, sort_by_key_filter_comm, decorate_filter.
Qed.

Section Previewable.

Variable is_previewable : string -> bool.
Implicit Types (f g : Dict) (l : list Dict) (sel : option Dict).

Lemma scan_filter_previewable dp l sel :
  scan is_previewable dp l sel
  = scan is_previewable dp
      (filter (fun f => previewable is_previewable f = true) l) sel.
Proof.
  revert sel. induction l as [|x l IH]; intros sel; [reflexivity|].
  rewrite filter_cons, scan_cons.
  destruct (decide (previewable is_previewable x = true)) as [Hx|Hx].
  - by rewrite scan_cons, IH.
  - rewrite IH. f_equal. unfold scan_step.
    by destruct (previewable is_previewable x).
Qed.

(** The key of what the scan selects from two orderings of the same
    descriptors. *)
Lemma scan_key_perm dp (fs gs : list Dict) :
  fs ≡ₚ gs ->
  skey <$> scan is_previewable dp (scan_order fs) None
  = skey <$> scan is_previewable dp (scan_order gs) None.
Proof.
  intros Hp.
  assert (Hnone : skey <$> scan is_previewable None (scan_order fs) None
                  = skey <$> scan is_previewable None (scan_order gs) None).
  { pose proof (scan_no_default_smallest is_previewable _
                  (scan_order_sorted fs)) as H1.
    pose proof (scan_no_default_smallest is_previewable _
                  (scan_order_sorted gs)) as H2.
    apply (smallest_previewable_perm _ _ fs) in H1;
      [|apply scan_order_perm].
    apply (smallest_previewable_perm _ _ fs) in H2;
      [|by rewrite scan_order_perm].
    destruct (scan _ None (scan_order fs) None) as [f|],
             (scan _ None (scan_order gs) None) as [g|]; simpl in *.
    - destruct H1 as (Hf & Hpf & Hminf), H2 as (Hg & Hpg & Hming).
      f_equal. apply String.leb_antisym; auto.
    - destruct H1 as (Hf & Hpf & _). rewrite (H2 f Hf) in Hpf. discriminate.
    - destruct H2 as (Hg & Hpg & _). rewrite (H1 g Hg) in Hpg. discriminate.
    - reflexivity. }
  destruct dp as [dk|]; [|exact Hnone].
  destruct (decide (Exists (fun f => skey f = dk /\
                              previewable is_previewable f = true) fs))
    as [Hex | Hno].
  - apply Exists_exists in Hex as (f & Hf & Hk & Hpf).
    destruct (scan_default is_previewable dk (scan_order fs) None f)
      as (g1 & -> & _ & Hg1 & _); [by rewrite scan_order_perm|done..|].
    destruct (scan_default is_previewable dk (scan_order gs) None f)
      as (g2 & -> & _ & Hg2 & _);
      [by rewrite scan_order_perm, <- Hp|done..|].
    simpl. congruence.
  - assert (Hirr : forall l, l ≡ₚ fs ->
              Forall (fun f => skey f = dk ->
                               previewable is_previewable f = false) l).
    { intros l Hl. apply Forall_forall. intros f Hf Hk.
      destruct (previewable is_previewable f) eqn:Hpf; [|reflexivity].
      exfalso. apply Hno. apply Exists_exists. exists f.
      split; [by rewrite <- Hl|done]. }
    rewrite !scan_default_irrelevant; [exact Hnone|..].
    + apply Hirr. by rewrite scan_order_perm, <- Hp.
    + apply Hirr. apply scan_order_perm.
Qed.

End Previewable.

(** X16: the name of the selected file does not depend on the order of the
    input, also when keys repeat: on two orderings of the same descriptors
    the selector selects descriptors with the same ['key'], or nothing on
    both, or raises the same exception on both. *)
Theorem select_preview_file_key_permutation
    (is_previewable : string -> bool) (fs gs : list Dict)
    (default_preview : option string) :
  fs ≡ₚ gs ->
  selected_key (select_preview_file is_previewable (Some fs) default_preview)
  = selected_key
      (select_preview_file is_previewable (Some gs) default_preview).
Proof.
  intros Hp.
  destruct (select_preview_file_cases is_previewable (Some fs)
              default_preview)
    as [[Hall Heq] | [[Hex Heq] | (Hall & Hex & Heq)]];
    cbn [or_empty] in *; rewrite Heq.
  - rewrite select_preview_file_scan by (by rewrite <- Hp).
    pose proof (scan_key_perm is_previewable default_preview fs gs Hp)
      as Hkey.
    assert (Hraw : forall l r, l ≡ₚ fs ->
              scan is_previewable default_preview (scan_order l) None = r ->
              selected_key (Ok r)
              = Ok ((fun s => VStr s) <$> (skey <$> r))).
    { intros l [f|] Hl Hr; [|reflexivity]. simpl. f_equal.
      apply scan_result in Hr as [? | [Hf _]]; [discriminate|].
      rewrite scan_order_perm, Hl in Hf.
      rewrite Forall_forall in Hall. destruct (Hall f Hf) as [k Hk].
      rewrite (skey_Some _ _ Hk). by apply key_of_Some. }
    rewrite (Hraw fs _ ltac:(reflexivity) eq_refl).
    rewrite (Hraw gs _ ltac:(by symmetry) eq_refl).
    by rewrite Hkey.
  - rewrite select_preview_file_KeyError by (by rewrite <- Hp).
    reflexivity.
  - rewrite select_preview_file_TypeError by (by rewrite <- Hp).
    reflexivity.
Qed.

Lemma select_preview_file_key_permutation_witness :
  [file_desc "a.png" 1; file_desc "a.png" 2]
    ≡ₚ [file_desc "a.png" 2; file_desc "a.png" 1] /\
  selected_key (select_preview_file images_and_text
                  (Some [file_desc "a.png" 1; file_desc "a.png" 2]) None)
  = selected_key (select_preview_file images_and_text
                    (Some [file_desc "a.png" 2; file_desc "a.png" 1]) None).
Proof.
  assert (H : [file_desc "a.png" 1; file_desc "a.png" 2]
                ≡ₚ [file_desc "a.png" 2; file_desc "a.png" 1])
    by apply Permutation_swap.
  split; [exact H|].
  exact (select_preview_file_key_permutation images_and_text _ _ None H).
Defined.

(** X17: descriptors that cannot be previewed are invisible to the
    selector: when every descriptor has a string key, removing those whose
    extension the predicate rejects does not change the result. *)
Theorem select_preview_file_ignores_unpreviewable
    (is_previewable : string -> bool) (files : list Dict)
    (default_preview : option string) :
  Forall (fun f => is_Some (key_of f)) files ->
  select_preview_file is_previewable (Some files) default_preview
  = select_preview_file is_previewable
      (Some (filter (fun f => previewable is_previewable f = true) files))
      default_preview.
Proof.
  intros Hall.
  rewrite !select_preview_file_scan;
    [|apply Forall_forall; intros f [_ Hf]%list_elem_of_filter;
      rewrite Forall_forall in Hall; by apply Hall|done].
  by rewrite scan_order_filter_comm, <- scan_filter_previewable.
Qed.

Lemma select_preview_file_ignores_unpreviewable_witness :
  Forall (fun f => is_Some (key_of f))
    [file_desc "README" 1; file_desc "b.png" 2; file_desc "a.zip" 3] /\
  select_preview_file images_and_text
    (Some [file_desc "README" 1; file_desc "b.png" 2; file_desc "a.zip" 3])
    (Some "a.zip")
  = select_preview_file images_and_text
      (Some (filter (fun f => previewable images_and_text f = true)
               [file_desc "README" 1; file_desc "b.png" 2;
                file_desc "a.zip" 3]))
      (Some "a.zip").
Proof.
  assert (H : Forall (fun f => is_Some (key_of f))
                [file_desc "README" 1; file_desc "b.png" 2;
                 file_desc "a.zip" 3])
    by (repeat constructor; vm_compute; eauto).
  split; [exact H|].
  exact (select_preview_file_ignores_unpreviewable images_and_text _
           (Some "a.zip") H).
Defined.
